(** * ChoCo: chord conversion pipeline and iReal tune segmentation

    A shallow embedding of
      - [choco/parsers.py]                         ([ChoCoTune]),
      - [choco/converters/lark_converter.py]       ([Parser]),
      - [choco/converters/converter_instances.py]  ([parse_jams],
        [parse_jams_dataset]),
      - [choco/parsers/m21_parser.py]              ([process_score],
        [process_romantext], [extract_romantext_annotator]),
    together with the properties of these functions.

    Python strings are modelled by [string] (sequences of characters with
    code point below 256), Python integers by [Z], dictionaries by [gmap],
    exceptions by an error monad that also threads the mutable state of the
    program (the log, the files written, the local objects that the code
    updates in place). *)

From Stdlib Require Import ZArith Ascii String List Bool Lia Floats.
From stdpp Require Import gmap strings list fin_maps pretty.

Local Open Scope string_scope.
Local Open Scope list_scope.

(** ** Python strings *)

Module PyStr.

(** [s.startswith(p)] *)
Definition startswith (p s : string) : bool := String.prefix p s.

(** [s[n:]] *)
Fixpoint drop (n : nat) (s : string) : string :=
  match n, s with
  | O, _ => s
  | S _, EmptyString => EmptyString
  | S k, String _ s' => drop k s'
  end.

(** The scanning loops below walk over the string one character at a
    time; [skip] counts the characters of a match that was found at an
    earlier position and still have to be passed over. *)

(** [s.replace(old, new)] for a non-empty [old]: every occurrence of
    [old], found from left to right without overlap, becomes [new]. *)
Fixpoint replace_from (old new : string) (skip : nat) (s : string) : string :=
  match s with
  | EmptyString => EmptyString
  | String c s' =>
      match skip with
      | S k => replace_from old new k s'
      | O =>
          if startswith old s
          then new ++ replace_from old new (String.length old - 1) s'
          else String c (replace_from old new 0 s')
      end
  end.

(** [s.replace(old, new)] with an empty [old] puts [new] before every
    character and at the end. *)
Fixpoint intersperse_new (new s : string) : string :=
  match s with
  | EmptyString => new
  | String c s' => new ++ String c (intersperse_new new s')
  end.

Definition replace (old new s : string) : string :=
  match old with
  | EmptyString => intersperse_new new s
  | String _ _ => replace_from old new 0 s
  end.

(** [c.isspace()] on the code points below 256: TAB, LF, VT, FF, CR,
    FS, GS, RS, US, SPACE, NEL (0x85) and NBSP (0xA0). *)
Definition isspace (c : ascii) : bool :=
  let n := nat_of_ascii c in
  (((9 <=? n) && (n <=? 13)) || ((28 <=? n) && (n <=? 32))
   || (n =? 133) || (n =? 160))%nat.

Fixpoint lstrip (s : string) : string :=
  match s with
  | EmptyString => EmptyString
  | String c s' => if isspace c then lstrip s' else s
  end.

Fixpoint rstrip (s : string) : string :=
  match s with
  | EmptyString => EmptyString
  | String c s' =>
      match rstrip s' with
      | EmptyString => if isspace c then EmptyString else String c EmptyString
      | r => String c r
      end
  end.

(** [s.strip()] *)
Definition strip (s : string) : string := rstrip (lstrip s).

(** [re.split(pattern, s)] for a pattern without groups that never
    matches the empty string.  [sep_at s] is the length of the match of
    the pattern at the very start of [s], and [0] when there is none.
    The result is never empty: its head is the piece under
    construction. *)
Fixpoint re_split_from (sep_at : string -> nat) (skip : nat) (s : string)
  : list string :=
  match s with
  | EmptyString => [EmptyString]
  | String c s' =>
      match skip with
      | S k => re_split_from sep_at k s'
      | O =>
          match sep_at s with
          | S k => EmptyString :: re_split_from sep_at k s'
          | O =>
              match re_split_from sep_at 0 s' with
              | p :: ps => String c p :: ps
              | [] => [String c EmptyString]
              end
          end
      end
  end.

Definition re_split (sep_at : string -> nat) (s : string) : list string :=
  re_split_from sep_at 0 s.

(** Longest prefix of [s] whose characters all satisfy [p]
    (a greedy character class [[...]*] at the start of [s]). *)
Fixpoint span (p : ascii -> bool) (s : string) : string :=
  match s with
  | EmptyString => EmptyString
  | String c s' => if p c then String c (span p s') else EmptyString
  end.


Fixpoint forallb_str (p : ascii -> bool) (s : string) : bool :=
  match s with
  | EmptyString => true
  | String c s' => p c && forallb_str p s'
  end.

End PyStr.


(** ** Exceptions, results and the state-and-error monad *)

(** The exception classes that the code raises or catches by name; any
    other class is an [OtherException] with its class name.  All of them
    derive from [Exception]: an [except Exception] clause catches every
    value of this type. *)
Inductive exn : Type :=
| KeyError (key : string)
| RuntimeError (msg : string)
| TypeError (msg : string)
| ValueError (msg : string)
| SchemaError (msg : string)
| OtherException (cls msg : string).

(** [type(e).__name__] *)
Definition exn_class (e : exn) : string :=
  match e with
  | KeyError _ => "KeyError"
  | RuntimeError _ => "RuntimeError"
  | TypeError _ => "TypeError"
  | ValueError _ => "ValueError"
  | SchemaError _ => "SchemaError"
  | OtherException cls _ => cls
  end.

Inductive result (A : Type) : Type :=
| Ok (a : A)
| Raise (e : exn).
Arguments Ok {A} a.
Arguments Raise {A} e.

Definition is_Ok {A} (r : result A) : bool :=
  match r with Ok _ => true | Raise _ => false end.

#[global] Instance result_ret : MRet result := fun A a => Ok a.
#[global] Instance result_bind : MBind result := fun A B k r =>
  match r with
  | Ok a => k a
  | Raise e => Raise e
  end.

(** A computation that reads and writes a state [S] and either returns a
    value or raises; what was written before the exception stays
    written. *)
Definition M (S A : Type) : Type := S -> result A * S.

#[global] Instance M_ret {S} : MRet (M S) := fun A a s => (Ok a, s).
#[global] Instance M_bind {S} : MBind (M S) := fun A B k m s =>
  match m s with
  | (Ok a, s') => k a s'
  | (Raise e, s') => (Raise e, s')
  end.

Definition raise {S A} (e : exn) : M S A := fun s => (Raise e, s).

Definition lift {S A} (r : result A) : M S A := fun s => (r, s).

Definition modify {S} (f : S -> S) : M S unit := fun s => (Ok tt, f s).

(** [try: body except <classes selected by handler> as e: handler e] *)
Definition try_except {S A} (body : M S A) (handler : exn -> option (M S A))
  : M S A := fun s =>
  match body s with
  | (Ok a, s') => (Ok a, s')
  | (Raise e, s') =>
      match handler e with
      | Some h => h s'
      | None => (Raise e, s')
      end
  end.

(** [for x in xs: acc = body(acc, x)] *)
Fixpoint for_each {S A B} (xs : list A) (body : B -> A -> M S B) (acc : B)
  : M S B :=
  match xs with
  | [] => mret acc
  | x :: xs' => acc' ← body acc x; for_each xs' body acc'
  end.

(** ** The annotation containers of the [jams] library *)

(** [jams.Observation]: an immutable named tuple. *)
Record Observation : Type := mkObservation {
  time : float;
  duration : float;
  value : string;
  confidence : option float;
}.

(** [jams.Annotation]: a namespace, the observations in the order in
    which iteration yields them, and the remaining attributes
    ([annotation_metadata], [sandbox], ...), which the code never reads. *)
Record Annotation : Type := mkAnnotation {
  namespace : string;
  data : list Observation;
  annotation_metadata : string;
}.

Record JAMS : Type := mkJAMS {
  annotations : list Annotation;
  file_metadata : string;
  sandbox : string;
}.

(** [jams.Annotation(namespace=ns)] *)
Definition new_Annotation (ns : string) : Annotation :=
  {| namespace := ns; data := []; annotation_metadata := EmptyString |}.

(** [a.append(time=t, duration=d, value=v, confidence=c)] *)
Definition Annotation_append (a : Annotation) (t d : float) (v : string)
  (c : option float) : Annotation :=
  {| namespace := namespace a;
     data := data a ++ [mkObservation t d v c];
     annotation_metadata := annotation_metadata a |}.

(** [jams.JAMS()] *)
Definition new_JAMS : JAMS :=
  {| annotations := []; file_metadata := EmptyString; sandbox := EmptyString |}.

(** ** The log, the files written *)

Inductive log_level : Type := INFO | WARNING | ERROR.

(** One constructor per logging call of the sources, with the values
    that the call formats into its message. *)
Inductive log_event : Type :=
| Parsed (title : string)
| CouldNotImport (song : string) (err : exn)
| ConvertingChord (chord : string)
| ImpossibleKey
| CouldNotSave (jams_path : string) (err : exn)
| ConvertingFile (file : string).

Definition level_of (e : log_event) : log_level :=
  match e with
  | Parsed _ | ConvertingChord _ | ConvertingFile _ => INFO
  | CouldNotImport _ _ => WARNING
  | ImpossibleKey | CouldNotSave _ _ => ERROR
  end.

(** A row of [conversion_meta.csv]. *)
Definition row : Type := string * string * Z.

Record world : Type := mkWorld {
  log : list log_event;
  saved : list (string * JAMS);
  csv : list (string * list row);
}.

Definition empty_world : world := {| log := []; saved := []; csv := [] |}.

Definition emit (e : log_event) : M world unit :=
  modify (fun w => {| log := log w ++ [e]; saved := saved w; csv := csv w |}).

Definition write_jams (path : string) (j : JAMS) : M world unit :=
  modify (fun w => {| log := log w; saved := saved w ++ [(path, j)]; csv := csv w |}).

Definition write_csv (path : string) (rows : list row) : M world unit :=
  modify (fun w => {| log := log w; saved := saved w; csv := csv w ++ [(path, rows)] |}).

(** ** [choco/parsers.py] *)

(** The base class [pyRealParser.Tune] and [urllib.parse.unquote] are
    libraries: their functions are parameters of the development.
    [Tune_init] is the constructor; it receives the [_get_measures] of the
    class that is being instantiated. *)
Class PyRealParser : Type := {
  Tune : Type;
  title : Tune -> string;
  Tune_init : (string -> result (list string)) -> string -> result Tune;
  _cleanup_chord_string : string -> result string;
  _remove_annotations : string -> result string;
  _fill_long_repeats : string -> result string;
  _fill_codas : string -> result string;
  _fill_single_double_repeats : list string -> result (list string);
  _fill_slashes : list string -> result (list string);
  unquote : string -> string;
}.

Definition is_char (c : ascii) (n : nat) : bool := Nat.eqb (nat_of_ascii c) n.

(** The match of [\||LZ|K|Z|{|}|\[|\]] at the start of [s]: its length, or
    [0].  Code points: [|] 124, [L] 76, [Z] 90, [K] 75, [{] 123, [}] 125,
    [[] 91, []] 93. *)
Definition is_single_marker (c : ascii) : bool :=
  is_char c 124 || is_char c 75 || is_char c 90 || is_char c 123
  || is_char c 125 || is_char c 91 || is_char c 93.

Definition measure_marker_at (s : string) : nat :=
  match s with
  | EmptyString => 0
  | String c s' =>
      if is_char c 124 then 1
      else if is_char c 76 && (match s' with
                               | String d _ => is_char d 90
                               | EmptyString => false
                               end) then 2
      else if is_single_marker c then 1
      else 0
  end.

(** Lines 26 and 27 of [_get_measures]: the split on the measure markers
    and the removal of the blank measures. *)
Definition split_measures (chord_string : string) : list string :=
  let measures := PyStr.re_split measure_marker_at chord_string in
  map PyStr.strip
    (List.filter (fun m => negb (String.eqb (PyStr.strip m) EmptyString)) measures).

Module ChoCoTune.

Section WithTune.
Context `{PyRealParser}.

Definition _get_measures (chord_string : string) : result (list string) :=
  chord_string ← _cleanup_chord_string chord_string;
  chord_string ← _remove_annotations chord_string;
  chord_string ← _fill_long_repeats chord_string;
  chord_string ← _fill_codas chord_string;
  let measures := split_measures chord_string in
  measures ← _fill_single_double_repeats measures;
  measures ← _fill_slashes measures;
  mret measures.

(** [ChoCoTune(song)] *)
Definition new (song : string) : result Tune := Tune_init _get_measures song.

(** [re.match] of [url] against the scheme [irealb://] followed by a
    group of one or more characters other than the double quote (code
    point 34): the first group, when the pattern matches. *)
Definition match_irealb (url : string) : option string :=
  if PyStr.startswith "irealb://" url then
    match PyStr.span (fun c => negb (is_char c 34)) (PyStr.drop 9 url) with
    | EmptyString => None
    | group1 => Some group1
    end
  else None.

(** The match of [===] at the start of [s]. *)
Definition triple_at (s : string) : nat :=
  if PyStr.startswith "===" s then 3 else 0.

(** The body of the loop over the songs. *)
Definition import_song (tunes : list Tune) (song : string)
  : M world (list Tune) :=
  if negb (String.eqb song EmptyString) then
    try_except
      (tune ← lift (new song);
       let tunes := tunes ++ [tune] in
       emit (Parsed (title tune));;
       mret tunes)
      (fun err => Some (emit (CouldNotImport song err);; mret tunes))
  else mret tunes.

Definition parse_ireal_url (url : string) : M world (list Tune) :=
  let url := unquote url in
  match match_irealb url with
  | None => raise (RuntimeError "Provided string is not a valid iReal url!")
  | Some group1 =>
      let songs := PyStr.re_split triple_at group1 in
      for_each songs import_song []
  end.

End WithTune.

End ChoCoTune.

(** ** What the segmentation and the import produce *)



(** A piece of the split that [_get_measures] keeps. *)
Definition nonblank (m : string) : bool :=
  negb (String.eqb (PyStr.strip m) EmptyString).

Section Imported.
Context `{PyRealParser}.

(** The tunes of the segments that are not empty and that the constructor
    accepts, and the messages of the loop, both in the order of the
    segments. *)
Fixpoint imported (songs : list string) : list Tune :=
  match songs with
  | [] => []
  | song :: songs' =>
      if String.eqb song EmptyString then imported songs'
      else match ChoCoTune.new song with
           | Ok tune => tune :: imported songs'
           | Raise _ => imported songs'
           end
  end.

Fixpoint import_log (songs : list string) : list log_event :=
  match songs with
  | [] => []
  | song :: songs' =>
      if String.eqb song EmptyString then import_log songs'
      else match ChoCoTune.new song with
           | Ok tune => Parsed (title tune) :: import_log songs'
           | Raise err => CouldNotImport song err :: import_log songs'
           end
  end.

End Imported.

(** The world after the messages [events]. *)
Definition with_events (events : list log_event) (w : world) : world :=
  {| log := log w ++ events; saved := saved w; csv := csv w |}.

(** ** [choco/converters/lark_converter.py] *)

(** The grammars and [BaseParser] live in modules that are parameters
    here. *)
Class Lark : Type := {
  grammar : Type;
  leadsheet_music21 : grammar;
  abc_music21 : grammar;
  BaseParser : Type;
  BaseParser_init : grammar -> result BaseParser;
}.

(** [d[k]] on a dictionary with string keys. *)
Definition getitem {V} (d : gmap string V) (k : string) : result V :=
  match d !! k with
  | Some v => Ok v
  | None => Raise (KeyError k)
  end.

Module Parser.

Section WithLark.
Context `{Lark}.

Definition DIALECT_MAP : gmap string grammar :=
  <["abc_music21" := abc_music21]>
    (<["leadsheet_music21" := leadsheet_music21]> ∅).

(** [Parser(dialect)] *)
Definition __init__ (dialect : string) : result BaseParser :=
  g ← getitem DIALECT_MAP dialect;
  BaseParser_init g.

End WithLark.

End Parser.

(** ** The conversion dispatch *)

Module ConversionDispatch.

(** Modelled from the spec: an entry of the dispatch table of section
    4.5, a parser and an encoder.  The module [chord_converter], with
    [ChordConverter] and its table of supported annotation types, is not
    among the sources; the sources only call it. *)
Record dialect : Type := mkDialect {
  chord_tree : Type;
  parse : string -> result chord_tree;
  encode : chord_tree -> result string;
}.

(** Modelled from the spec: the failures of a conversion.  A failure of
    the parser or of the encoder is tagged with its stage and carries the
    original token and the failure itself. *)
Inductive stage : Type := Parsing | Encoding.

Inductive conversion_error : Type :=
| UnsupportedAnnotationType (annotation_type : string)
| ConversionFailure (tag : stage) (token : string) (cause : exn).

Inductive conversion : Type :=
| Converted (canonical_string : string)
| Failed (err : conversion_error).

(** Modelled from the spec: [convert(raw_value, annotation_type)] of
    section 4.5, where [table] maps the registered annotation-type
    identifiers to their parser and encoder.  It fails with
    [UnsupportedAnnotationType] when the identifier is not registered and
    hands on the failures of the parser and of the encoder as a tagged
    conversion failure that carries the original token. *)
Definition convert (table : gmap string dialect)
  (raw_value annotation_type : string) : conversion :=
  match table !! annotation_type with
  | None => Failed (UnsupportedAnnotationType annotation_type)
  | Some d =>
      match parse d raw_value with
      | Raise e => Failed (ConversionFailure Parsing raw_value e)
      | Ok tree =>
          match encode d tree with
          | Raise e => Failed (ConversionFailure Encoding raw_value e)
          | Ok canonical_string => Converted canonical_string
          end
      end
  end.

(** A table with one dialect, whose parser rejects the token [?] and
    whose encoder has no spelling for the token [N]. *)
Definition leadsheet : dialect :=
  {| chord_tree := string;
     parse := fun token =>
       if String.eqb token "?"
       then Raise (OtherException "UnexpectedInput" "no terminal matches")
       else Ok token;
     encode := fun tree =>
       if String.eqb tree "N" then Raise (ValueError "no chord")
       else Ok (tree ++ ":maj")%string |}.

Definition sample_table : gmap string dialect := {["leadsheet" := leadsheet]}.

End ConversionDispatch.

(** ** [choco/converters/converter_instances.py] *)

(** The exceptions of [open(path, 'w')]: [OSError] and its subclasses. *)
Inductive os_error : Type :=
| FileNotFoundError
| PermissionError
| IsADirectoryError
| OSError.

Definition os_error_class (e : os_error) : string :=
  match e with
  | FileNotFoundError => "FileNotFoundError"
  | PermissionError => "PermissionError"
  | IsADirectoryError => "IsADirectoryError"
  | OSError => "OSError"
  end.

(** The exception object for [e] on the file [path]. *)
Definition raised_by_open (e : os_error) (path : string) : exn :=
  OtherException (os_error_class e) path.

(** What the module imports and the operating system: [CHORD_NAMESPACES]
    (from [constants]), [ChordConverter] (from [chord_converter]),
    [create_dir] (from [converter_utils]), [jams.load], [os.listdir],
    [os.path.isfile], [os.path.join], and the outcome of [JAMS.save] with
    [strict=False].  Such a save validates the container first and, not
    being strict, only warns when the validation fails: it raises no
    [SchemaError].  It then opens the file for writing and dumps the
    container into it.  [jams_save_error] is the error of the opening,
    [None] when the file is opened and written. *)
Class Pipeline : Type := {
  CHORD_NAMESPACES : list string;
  ChordConverter : Type;
  ChordConverter_init : string -> result ChordConverter;
  convert_chords : ChordConverter -> string -> result string;
  create_dir : string -> result string;
  jams_load : string -> result JAMS;
  jams_save_error : JAMS -> string -> option os_error;
  os_listdir : string -> result (list string);
  os_path_isfile : string -> bool;
  os_path_join : string -> string -> string;
}.

(** [d[k] += 1] on a [defaultdict(int)]. *)
Definition increment (k : string * string) (d : gmap (string * string) Z)
  : gmap (string * string) Z :=
  <[k := (default 0 (d !! k) + 1)%Z]> d.

(** [d.update(other)]: the entries of [other] replace those of [d];
    [other] may be [None], which is not iterable. *)
Definition dict_update (d : gmap (string * string) Z)
  (other : option (gmap (string * string) Z))
  : result (gmap (string * string) Z) :=
  match other with
  | Some o => Ok (o ∪ d)
  | None => Raise (TypeError "'NoneType' object is not iterable")
  end.

(** The counters after [d[pair] += 1] for each of [pairs], and the number
    of times [pair] is among [pairs]. *)
Definition count_pairs (pairs : list (string * string))
  (d : gmap (string * string) Z) : gmap (string * string) Z :=
  fold_left (fun d pair => increment pair d) pairs d.

Definition occurrences (pair : string * string) (pairs : list (string * string))
  : Z :=
  Z.of_nat (length (List.filter (fun q => bool_decide (q = pair)) pairs)).

(** The objects that [parse_jams] holds in its local variables. *)
Record locals : Type := mkLocals {
  chord_metadata : gmap (string * string) Z;
  original_jams : JAMS;
  jam : JAMS;
  all_annotations : list Annotation;
}.

Definition set_chord_metadata (f : gmap (string * string) Z -> gmap (string * string) Z)
  (l : locals) : locals :=
  {| chord_metadata := f (chord_metadata l); original_jams := original_jams l;
     jam := jam l; all_annotations := all_annotations l |}.

(** [all_annotations.append(a)] *)
Definition all_annotations_append (a : Annotation) (l : locals) : locals :=
  {| chord_metadata := chord_metadata l; original_jams := original_jams l;
     jam := jam l; all_annotations := all_annotations l ++ [a] |}.

(** [jam.annotations.append(a)] *)
Definition jam_annotations_append (a : Annotation) (l : locals) : locals :=
  {| chord_metadata := chord_metadata l; original_jams := original_jams l;
     jam := {| annotations := annotations (jam l) ++ [a];
               file_metadata := file_metadata (jam l);
               sandbox := sandbox (jam l) |};
     all_annotations := all_annotations l |}.

(** The replacements applied to the value of a key observation. *)
Definition convert_key (v : string) : string :=
  PyStr.replace "min" "minor" (PyStr.replace "maj" "major" (PyStr.replace "-" ":" v)).

(** The observation that the loop over a [key_mode] annotation appends
    for [o]. *)
Definition key_observation_of (o : Observation) : Observation :=
  {| time := time o; duration := duration o;
     value := convert_key (value o); confidence := confidence o |}.

(** An exception handler for [except ValueError]. *)
Definition except_ValueError {S A} (h : M S A) (e : exn) : option (M S A) :=
  match e with ValueError _ => Some h | _ => None end.

(** An exception handler for [except jams.exceptions.SchemaError as e]. *)
Definition except_SchemaError {S A} (h : exn -> M S A) (e : exn) : option (M S A) :=
  match e with SchemaError _ => Some (h e) | _ => None end.

Section WithPipeline.
Context `{Pipeline}.

(** Lines 45 to 50: the body of the loop over the observations of a
    chord annotation. *)
Definition convert_chord_observation (annotation_type : string)
  (st : Annotation * locals) (observation : Observation)
  : M world (Annotation * locals) :=
  let '(converted_annotation, l) := st in
  emit (ConvertingChord (value observation));;
  converter ← lift (ChordConverter_init annotation_type);
  converted_value ← lift (convert_chords converter (value observation));
  let converted_annotation :=
    Annotation_append converted_annotation (time observation)
      (duration observation) converted_value (confidence observation) in
  mret (converted_annotation,
        set_chord_metadata (increment (value observation, converted_value)) l).

(** Lines 55 to 62: the body of the loop over the observations of a
    [key_mode] annotation. *)
Definition convert_key_observation (converted_annotation : Annotation)
  (key_observation : Observation) : M world Annotation :=
  try_except
    (let converted_key := convert_key (value key_observation) in
     mret (Annotation_append converted_annotation (time key_observation)
             (duration key_observation) converted_key
             (confidence key_observation)))
    (except_ValueError (emit ImpossibleKey;; mret converted_annotation)).

(** Lines 42 to 63: the body of the loop over the original annotations. *)
Definition convert_annotation (annotation_type : string) (l : locals)
  (annotation : Annotation) : M world locals :=
  if bool_decide (namespace annotation ∈ CHORD_NAMESPACES) then
    '(converted_annotation, l) ←
      for_each (data annotation) (convert_chord_observation annotation_type)
        (new_Annotation "chord_harte", l);
    mret (all_annotations_append converted_annotation l)
  else if String.eqb (namespace annotation) "key_mode" then
    converted_annotation ←
      for_each (data annotation) convert_key_observation
        (new_Annotation "key_mode");
    mret (all_annotations_append converted_annotation l)
  else mret l.

(** Lines 65 to 68. *)
Definition keep_originals (replace : bool) (l : locals) : locals :=
  if negb replace then
    fold_left
      (fun l oa =>
         if negb (String.eqb (namespace oa) "key_mode")
         then jam_annotations_append oa l else l)
      (annotations (original_jams l)) l
  else l.

(** Lines 70 and 71. *)
Definition append_converted (l : locals) : locals :=
  fold_left (fun l a => jam_annotations_append a l) (all_annotations l) l.

(** Lines 32 to 71 of [parse_jams]: everything before the file is
    saved.  The result holds the local objects as they are when [jam.save]
    is called. *)
Definition parse_jams_convert (jams_path annotation_type : string)
  (replace : bool) : M world locals :=
  original_jams ← lift (jams_load jams_path);
  let original_annotations := annotations original_jams in
  let l := {| chord_metadata := ∅;
              original_jams := original_jams;
              jam := {| annotations := annotations new_JAMS;
                        file_metadata := file_metadata original_jams;
                        sandbox := sandbox original_jams |};
              all_annotations := [] |} in
  l ← for_each original_annotations (convert_annotation annotation_type) l;
  let l := keep_originals replace l in
  mret (append_converted l).

(** [jam.save(path, strict=False)]: the file is written unless it
    cannot be opened. *)
Definition jam_save (j : JAMS) (path : string) : M world unit :=
  match jams_save_error j path with
  | Some e => raise (raised_by_open e path)
  | None => write_jams path j
  end.

(** Lines 73 to 78.  The function returns the metadata when the file is
    saved.  The [except] clause names [SchemaError] alone; it logs the
    failure, and the function then ends without a [return], that is with
    [None]. *)
Definition parse_jams (jams_path output_path annotation_type filename : string)
  (replace : bool) : M world (option (gmap (string * string) Z)) :=
  l ← parse_jams_convert jams_path annotation_type replace;
  try_except
    (jam_save (jam l) (os_path_join output_path filename);;
     mret (Some (chord_metadata l)))
    (except_SchemaError (fun jes => emit (CouldNotSave jams_path jes);; mret None)).

(** The body of the loop over the files of the directory. *)
Definition convert_file (jams_path converted_jams_dir annotation_type : string)
  (replace : bool) (metadata : gmap (string * string) Z) (file : string)
  : M world (gmap (string * string) Z) :=
  if os_path_isfile (os_path_join jams_path file) then
    emit (ConvertingFile file);;
    file_metadata ← parse_jams (os_path_join jams_path file) converted_jams_dir
                      annotation_type file replace;
    lift (dict_update metadata file_metadata)
  else mret metadata.

(** Lines 85 to 93: the metadata when the loop over the files ends. *)
Definition collect_metadata (jams_path output_path annotation_type : string)
  (replace : bool) : M world (gmap (string * string) Z) :=
  converted_jams_dir ← lift (create_dir (os_path_join output_path "jams_converted"));
  let metadata := ∅ in
  jams_files ← lift (os_listdir jams_path);
  for_each jams_files
    (convert_file jams_path converted_jams_dir annotation_type replace) metadata.

End WithPipeline.

(** ** What a run of the conversion produces *)

Section Outcome.
Context `{Pipeline}.

(** [ChordConverter(annotation_type=annotation_type).convert_chords(v)] *)
Definition convert_value (annotation_type v : string) : result string :=
  converter ← ChordConverter_init annotation_type;
  convert_chords converter v.

(** [o'] carries the converted value of [o] at the time of [o]. *)
Definition chord_observation_of (annotation_type : string) (o o' : Observation)
  : Prop :=
  time o' = time o /\ duration o' = duration o /\ confidence o' = confidence o
  /\ convert_value annotation_type (value o) = Ok (value o').

(** The annotations for which the loop of [parse_jams] builds a converted
    annotation. *)
Definition convertible (a : Annotation) : bool :=
  bool_decide (namespace a ∈ CHORD_NAMESPACES) || String.eqb (namespace a) "key_mode".

(** [c] is the annotation built from the convertible annotation [a]. *)
Definition converted_from (annotation_type : string) (a c : Annotation) : Prop :=
  if bool_decide (namespace a ∈ CHORD_NAMESPACES)
  then namespace c = "chord_harte" /\ annotation_metadata c = EmptyString
       /\ Forall2 (chord_observation_of annotation_type) (data a) (data c)
  else c = {| namespace := "key_mode"; data := map key_observation_of (data a);
              annotation_metadata := EmptyString |}.

(** The pairs of an original and a converted chord that the loop over
    the observations [os] counts, in order. *)
Definition observed_pairs (annotation_type : string) (os : list Observation)
  : list (string * string) :=
  omap (fun o => match convert_value annotation_type (value o) with
                 | Ok v => Some (value o, v)
                 | Raise _ => None
                 end) os.

(** The pairs that [parse_jams] counts for the annotations [anns]. *)
Definition file_pairs (annotation_type : string) (anns : list Annotation)
  : list (string * string) :=
  flat_map (fun a => if bool_decide (namespace a ∈ CHORD_NAMESPACES)
                     then observed_pairs annotation_type (data a) else []) anns.

(** The original annotations that line 67 lets into the output. *)
Definition not_key_mode (oa : Annotation) : bool :=
  negb (String.eqb (namespace oa) "key_mode").

(** The world after the message of line 45 for each of [os]. *)
Definition logged_chords (os : list Observation) (w : world) : world :=
  {| log := log w ++ map (fun o => ConvertingChord (value o)) os;
     saved := saved w; csv := csv w |}.

End Outcome.

(** The world once [path] has been written, and once the failure to save
    [jams_path] has been logged. *)
Definition with_saved (path : string) (j : JAMS) (w : world) : world :=
  {| log := log w; saved := saved w ++ [(path, j)]; csv := csv w |}.

Definition with_event (e : log_event) (w : world) : world :=
  {| log := log w ++ [e]; saved := saved w; csv := csv w |}.

(** The number of [ConvertingChord chord] messages in a log: how many
    times the chord has been handed to the converter. *)
Definition conversions_of (chord : string) (events : list log_event) : nat :=
  length (List.filter
            (fun e => match e with
                      | ConvertingChord c => String.eqb c chord
                      | _ => false
                      end) events).

(** Rows in ascending order of occurrences. *)
Fixpoint insert_row (r : row) (rows : list row) : list row :=
  match rows with
  | [] => [r]
  | r' :: rows' =>
      if (snd r <=? snd r')%Z then r :: rows else r' :: insert_row r rows'
  end.

Definition sort_values (rows : list row) : list row :=
  fold_right insert_row [] rows.

(** Lines 95 to 99. *)
Definition metadata_rows (metadata : gmap (string * string) Z) : list row :=
  map (fun meta => (fst (fst meta), snd (fst meta), snd meta)) (map_to_list metadata).

Section WithPipeline'.
Context `{Pipeline}.

Definition parse_jams_dataset (jams_path output_path annotation_type : string)
  (replace : bool) : M world unit :=
  metadata ← collect_metadata jams_path output_path annotation_type replace;
  let metadata_list := metadata_rows metadata in
  let metadata_df := sort_values metadata_list in
  write_csv (os_path_join output_path "conversion_meta.csv") metadata_df.

End WithPipeline'.

(** ** Concrete libraries and directories, for the examples *)

Module Fixture.

(** A tune library whose constructor rejects the songs that start with
    [bad], whose rewriting stages change nothing and where nothing is
    percent-encoded. *)
Definition tunes : PyRealParser :=
  {| Tune := string;
     title := fun t => t;
     Tune_init := fun get_measures song =>
       if PyStr.startswith "bad" song
       then Raise (ValueError "not a song")
       else Ok song;
     _cleanup_chord_string := Ok;
     _remove_annotations := Ok;
     _fill_long_repeats := Ok;
     _fill_codas := Ok;
     _fill_single_double_repeats := Ok;
     _fill_slashes := Ok;
     unquote := fun url => url |}.

Definition lark : Lark :=
  {| grammar := string;
     leadsheet_music21 := "leadsheet grammar";
     abc_music21 := "abc grammar";
     BaseParser := string;
     BaseParser_init := Ok |}.

Definition chord (t : float) (v : string) : Observation :=
  {| time := t; duration := 1%float; value := v; confidence := Some 1%float |}.

Definition chords_CC : Annotation :=
  {| namespace := "chord";
     data := [chord 0%float "C"; chord 1%float "C"];
     annotation_metadata := "curator" |}.

Definition chords_C : Annotation :=
  {| namespace := "chord";
     data := [chord 0%float "C"];
     annotation_metadata := "curator" |}.

Definition chords_unknown : Annotation :=
  {| namespace := "chord";
     data := [chord 0%float "?"];
     annotation_metadata := "curator" |}.

Definition key_G_min : Annotation :=
  {| namespace := "key_mode";
     data := [chord 0%float "G-min"];
     annotation_metadata := "curator" |}.

Definition file_a : JAMS :=
  {| annotations := [chords_CC; key_G_min]; file_metadata := "a"; sandbox := EmptyString |}.

Definition file_b : JAMS :=
  {| annotations := [chords_C]; file_metadata := "b"; sandbox := EmptyString |}.

Definition file_c : JAMS :=
  {| annotations := [chords_unknown]; file_metadata := "c"; sandbox := EmptyString |}.

(** A directory [in] with the given files; the output file named
    [unsavable] cannot be opened for writing; the converter appends [:maj]
    and rejects the chord [?]. *)
Definition pipeline (files : list string) (unsavable : string) : Pipeline :=
  {| CHORD_NAMESPACES := ["chord"; "chord_harte"];
     ChordConverter := string;
     ChordConverter_init := fun annotation_type =>
       if String.eqb annotation_type "leadsheet" then Ok annotation_type
       else Raise (KeyError annotation_type);
     convert_chords := fun _ v =>
       if String.eqb v "?"
       then Raise (OtherException "UnexpectedInput" "no terminal matches")
       else Ok (v ++ ":maj")%string;
     create_dir := Ok;
     jams_load := fun path =>
       if String.eqb path "in/a.jams" then Ok file_a
       else if String.eqb path "in/b.jams" then Ok file_b
       else if String.eqb path "in/c.jams" then Ok file_c
       else Raise (OtherException "FileNotFoundError" path);
     jams_save_error := fun _ path =>
       if String.eqb path ("out/jams_converted/" ++ unsavable)%string
       then Some PermissionError
       else None;
     os_listdir := fun _ => Ok files;
     os_path_isfile := fun _ => true;
     os_path_join := fun a b => (a ++ "/" ++ b)%string |}.

End Fixture.

(** ** More of Python's strings *)

Module PyStrMore.

(** [s[:n]] for a natural number [n] *)
Fixpoint take (n : nat) (s : string) : string :=
  match n, s with
  | S k, String c s' => String c (take k s')
  | _, _ => EmptyString
  end.

(** [sub in s] *)
Fixpoint contains (sub s : string) : bool :=
  PyStr.startswith sub s
  || match s with
     | EmptyString => false
     | String _ s' => contains sub s'
     end.

(** The index of the first occurrence of [sub] in [s]. *)
Fixpoint index_of (sub s : string) : option nat :=
  if PyStr.startswith sub s then Some 0
  else match s with
       | EmptyString => None
       | String _ s' => S <$> index_of sub s'
       end.

(** [s.find(sub)] *)
Definition find (sub s : string) : Z :=
  match index_of sub s with
  | Some i => Z.of_nat i
  | None => (-1)%Z
  end.

(** [s[:stop]]: a negative [stop] counts from the end. *)
Definition slice_to (stop : Z) (s : string) : string :=
  if (0 <=? stop)%Z then take (Z.to_nat stop) s
  else take (String.length s - Z.to_nat (- stop)) s.

End PyStrMore.

(** ** [choco/parsers/m21_parser.py]: RomanText *)

(** [open(path, "r")] followed by the reading of the whole text. *)
Class TextFiles : Type := {
  read_text : string -> result string;
}.

Module Annotator.

(** [re.search("Analyst:(.+)", analysis)]: the first group of the leftmost
    match.  The dot matches every character but the line feed (code point
    10), and the group takes as many characters as it can. *)
Fixpoint search_analyst (analysis : string) : option string :=
  match analysis with
  | EmptyString => None
  | String _ rest =>
      if PyStr.startswith "Analyst:" analysis then
        match PyStr.span (fun c => negb (is_char c 10)) (PyStr.drop 8 analysis) with
        | EmptyString => search_analyst rest
        | group1 => Some group1
        end
      else search_analyst rest
  end.

(** Lines 296 to 298: the body of the loop over the tool descriptions. *)
Definition strip_tool (st : string * string) (entry : string * string)
  : string * string :=
  let '(annotator_str, annotation_tool) := st in
  let '(tool_desc, tool_name) := entry in
  if PyStrMore.contains tool_desc annotator_str
  then (PyStr.replace tool_desc EmptyString annotator_str, tool_name)
  else (annotator_str, annotation_tool).

(** Lines 301 and 302: the body of the loop over the strings to ignore. *)
Definition cut_ignored (annotator_str ignore_str : string) : string :=
  if PyStrMore.contains ignore_str annotator_str
  then PyStrMore.slice_to (PyStrMore.find ignore_str annotator_str) annotator_str
  else annotator_str.

(** Nothing, or a line feed, comes next. *)
Definition at_line_end (after : string) : bool :=
  match after with
  | EmptyString => true
  | String c _ => is_char c 10
  end.

(** [line] is what follows the first [Analyst:] of [analysis] that has
    something after it on its line, up to the end of that line. *)
Definition first_analyst_line (analysis line : string) : Prop :=
  exists before after,
    analysis = (before ++ "Analyst:" ++ line ++ after)%string
    /\ line <> EmptyString
    /\ PyStr.forallb_str (fun c => negb (is_char c 10)) line = true
    /\ at_line_end after = true
    /\ forall before' after',
         analysis = (before' ++ "Analyst:" ++ after')%string ->
         String.length before' < String.length before ->
         at_line_end after' = true.

Section WithFiles.
Context `{TextFiles}.

(** The dictionary [annotation_tool_map] is the list of its items, in the
    order of the dictionary. *)
Definition extract_romantext_annotator (romantext_path : string)
  (clean_str : bool) (annotation_tool_map : list (string * string))
  (annotation_ignore : list string) : result (option string * string) :=
  analysis ← read_text romantext_path;
  let annotation_tool := EmptyString in
  match search_analyst analysis with
  | None => mret (None, annotation_tool)
  | Some group1 =>
      let annotator_str := PyStr.strip group1 in
      if negb clean_str then mret (Some annotator_str, annotation_tool)
      else
        let '(annotator_str, annotation_tool) :=
          fold_left strip_tool annotation_tool_map (annotator_str, annotation_tool) in
        let annotator_str := fold_left cut_ignored annotation_ignore annotator_str in
        let annotator_str := PyStr.replace " and " ", " annotator_str in
        mret (Some annotator_str, annotation_tool)
  end.

End WithFiles.

End Annotator.

(** The part of [music21] that [process_romantext] uses.  [QL] is the type
    of the quarter lengths and beats (floats or fractions) with its
    addition; a score gives its numerals in the order of the recursion,
    its metadata objects, its duration and its number of measures. *)
Class RomanTextLib : Type := {
  QL : Type;
  ql_add : QL -> QL -> QL;
  RTScore : Type;
  RTMetadata : Type;
  RomanNumeral : Type;
  parse_romantext : string -> result RTScore;
  rt_numerals : RTScore -> list RomanNumeral;
  rt_metadata : RTScore -> list RTMetadata;
  rt_title : RTMetadata -> option string;
  rt_composers : RTMetadata -> list string;
  rt_duration : RTScore -> QL;
  rt_measures : RTScore -> nat;
  rn_measure : RomanNumeral -> Z;
  rn_beat : RomanNumeral -> QL;
  rn_quarterLength : RomanNumeral -> QL;
  rn_key_name : RomanNumeral -> string;
  rn_figure : RomanNumeral -> string;
}.

Module RomanText.

Section WithLib.
Context `{RomanTextLib} `{TextFiles}.

(** A row of [chord_ann] or of [key_ann]: measure, offset, duration and
    the chord or the key. *)
Record rt_row : Type := mkRow {
  row_measure : Z;
  row_offset : QL;
  row_duration : QL;
  row_label : string;
}.

Record rt_metadata_dict : Type := mkMeta {
  md_title : option string;
  md_composers : list string;
  md_duration : QL;
  md_duration_m : Z;
  md_annotator : string;
  md_annotation_tools : string;
}.

(** [l[-1] = f(l[-1])] on a list that is not empty. *)
Fixpoint update_last {A} (f : A -> A) (l : list A) : list A :=
  match l with
  | [] => []
  | [x] => [f x]
  | x :: l' => x :: update_last f l'
  end.

Definition add_duration (d : QL) (r : rt_row) : rt_row :=
  {| row_measure := row_measure r; row_offset := row_offset r;
     row_duration := ql_add (row_duration r) d; row_label := row_label r |}.

(** [roman_numeral.key.name.replace('-', 'b')] *)
Definition local_key (roman_numeral : RomanNumeral) : string :=
  PyStr.replace "-" "b" (rn_key_name roman_numeral).

(** The row of [chord_ann] for a numeral, and the row of [key_ann] that a
    numeral opens. *)
Definition chord_row (rn : RomanNumeral) : rt_row :=
  mkRow (rn_measure rn) (rn_beat rn) (rn_quarterLength rn)
    (local_key rn ++ ":" ++ rn_figure rn)%string.

Definition key_row (rn : RomanNumeral) : rt_row :=
  mkRow (rn_measure rn) (rn_beat rn) (rn_quarterLength rn) (local_key rn).

(** Lines 246 to 259: the body of the loop over the numerals. *)
Definition add_numeral (st : list rt_row * list rt_row)
  (roman_numeral : RomanNumeral) : list rt_row * list rt_row :=
  let '(chord_ann, key_ann) := st in
  let measure := rn_measure roman_numeral in
  let offset := rn_beat roman_numeral in
  let duration := rn_quarterLength roman_numeral in
  let lkey := local_key roman_numeral in
  let chord_ann :=
    chord_ann ++ [mkRow measure offset duration
                    (lkey ++ ":" ++ rn_figure roman_numeral)%string] in
  let key_ann :=
    match last key_ann with
    | Some r =>
        if String.eqb (row_label r) lkey
        then update_last (add_duration duration) key_ann
        else key_ann ++ [mkRow measure offset duration lkey]
    | None => key_ann ++ [mkRow measure offset duration lkey]
    end in
  (chord_ann, key_ann).

(** The argument of [process_romantext]: a path or a parsed score. *)
Inductive romantext_arg : Type :=
| AsPath (path : string)
| AsScore (score : RTScore).

(** [seq[0]] *)
Definition first_item {A} (l : list A) : result A :=
  match l with
  | x :: _ => Ok x
  | [] => Raise (OtherException "IndexError" "list index out of range")
  end.

(** The keyword arguments are those of [extract_romantext_annotator].
    With a score as argument, [open] is called on the score, which is not a
    path. *)
Definition process_romantext (romantext : romantext_arg) (clean_str : bool)
  (annotation_tool_map : list (string * string)) (annotation_ignore : list string)
  : result (rt_metadata_dict * list rt_row * list rt_row) :=
  score ← match romantext with
          | AsPath path => parse_romantext path
          | AsScore score => Ok score
          end;
  '(annotator, ann_tools) ←
    match romantext with
    | AsPath path =>
        Annotator.extract_romantext_annotator path clean_str annotation_tool_map
          annotation_ignore
    | AsScore _ =>
        Raise (TypeError "expected str, bytes or os.PathLike object, not Score")
    end;
  let numerals := rt_numerals score in
  meta ← first_item (rt_metadata score);
  let metadata :=
    {| md_title := rt_title meta;
       md_composers := rt_composers meta;
       md_duration := rt_duration score;
       md_duration_m := Z.of_nat (rt_measures score);
       md_annotator := default EmptyString annotator;
       md_annotation_tools := ann_tools |} in
  let '(chord_ann, key_ann) := fold_left add_numeral numerals ([], []) in
  mret (metadata, chord_ann, key_ann).

(** The rows of [key_ann] for the run that [cur] opens and the numerals
    that follow it. *)
Fixpoint key_runs (cur : rt_row) (numerals : list RomanNumeral) : list rt_row :=
  match numerals with
  | [] => [cur]
  | rn :: rest =>
      if String.eqb (row_label cur) (local_key rn)
      then key_runs (add_duration (rn_quarterLength rn) cur) rest
      else cur :: key_runs (key_row rn) rest
  end.

(** The row of [key_ann] for a run of numerals in one local key: the
    place and the key of the first numeral, and the lengths of the run
    added up from left to right. *)
Definition run_row (run : RomanNumeral * list RomanNumeral) : rt_row :=
  mkRow (rn_measure (fst run)) (rn_beat (fst run))
    (fold_left ql_add (map rn_quarterLength (snd run)) (rn_quarterLength (fst run)))
    (local_key (fst run)).

(** The numerals of a run have the local key of its first numeral. *)
Definition one_key (run : RomanNumeral * list RomanNumeral) : Prop :=
  Forall (fun rn => local_key rn = local_key (fst run)) (snd run).

Definition run_numerals (run : RomanNumeral * list RomanNumeral)
  : list RomanNumeral := fst run :: snd run.

End WithLib.

(** No two neighbours of the list are equal. *)
Fixpoint adjacent_distinct (l : list string) : Prop :=
  match l with
  | a :: (b :: _) as l' => a <> b /\ adjacent_distinct l'
  | _ => True
  end.

End RomanText.

(** ** Concrete files and scores, for the examples *)

Module Sample.

Definition nl : string := String (ascii_of_nat 10) EmptyString.

Definition analysis_text : string :=
  ("Composer: J. S. Bach" ++ nl
   ++ "Analyst: Jane Doe and John Roe, using ToolX (checked)" ++ nl
   ++ "m1 I")%string.

Definition files : TextFiles :=
  {| read_text := fun path =>
       if String.eqb path "analysis.txt" then Ok analysis_text
       else if String.eqb path "bare.txt" then Ok "m1 I"
       else Raise (OtherException "FileNotFoundError" path) |}.

(** A numeral of the sample score: measure, beat, length, key, figure. *)
Record numeral : Type := mkNumeral {
  n_measure : Z;
  n_beat : Z;
  n_length : Z;
  n_key : string;
  n_figure : string;
}.

Definition numerals : list numeral :=
  [mkNumeral 1 1 2 "B- major" "I"; mkNumeral 1 3 2 "B- major" "V";
   mkNumeral 2 1 4 "g minor" "i"; mkNumeral 3 1 4 "B- major" "I"].

(** Durations are integers; the only score is the one of [analysis.txt]. *)
Definition romantext : RomanTextLib :=
  {| QL := Z;
     ql_add := Z.add;
     RTScore := list numeral;
     RTMetadata := string;
     RomanNumeral := numeral;
     parse_romantext := fun path =>
       if String.eqb path "analysis.txt" then Ok numerals
       else Raise (OtherException "FileNotFoundError" path);
     rt_numerals := fun score => score;
     rt_metadata := fun _ => ["Chorale"];
     rt_title := Some;
     rt_composers := fun _ => ["J. S. Bach"];
     rt_duration := fun score => fold_left Z.add (map n_length score) 0%Z;
     rt_measures := fun _ => 3;
     rn_measure := n_measure;
     rn_beat := n_beat;
     rn_quarterLength := n_length;
     rn_key_name := n_key;
     rn_figure := n_figure |}.

End Sample.

(** ** More descriptions of what the pipeline and the parser produce *)

(** Rows in ascending order of occurrences. *)
Fixpoint ascending (rows : list row) : Prop :=
  match rows with
  | r :: (r' :: _) as rows' => (snd r <= snd r')%Z /\ ascending rows'
  | _ => True
  end.

(** The warnings among the messages of a log. *)
Definition warnings (events : list log_event) : list log_event :=
  List.filter (fun e => match level_of e with WARNING => true | _ => false end) events.

(** The songs of a payload that are not empty. *)
Definition nonempty_songs (songs : list string) : list string :=
  List.filter (fun song => negb (String.eqb song EmptyString)) songs.

(** A character that is none of the single-character measure markers. *)
Definition not_marker (c : ascii) : bool := negb (is_single_marker c).

Section ChordObservations.
Context `{Pipeline}.

(** Every key of the metadata is a chord with its conversion, counted at
    least once. *)
Definition sound_metadata (ty : string) (m : gmap (string * string) Z) : Prop :=
  forall o c n, m !! (o, c) = Some n -> convert_value ty o = Ok c /\ (0 < n)%Z.

(** The observations that [parse_jams] hands to the converter, in
    order. *)
Definition chord_observations (anns : list Annotation) : list Observation :=
  flat_map (fun a => if bool_decide (namespace a ∈ CHORD_NAMESPACES)
                     then data a else []) anns.

End ChordObservations.

Module SampleJams.

(** A file with a key annotation and nothing else, and a pipeline whose
    converter rejects every annotation type. *)
Definition file_k : JAMS :=
  {| annotations := [Fixture.key_G_min]; file_metadata := "k"; sandbox := EmptyString |}.

Definition key_only : Pipeline :=
  {| CHORD_NAMESPACES := ["chord"; "chord_harte"];
     ChordConverter := unit;
     ChordConverter_init := fun annotation_type => Raise (KeyError annotation_type);
     convert_chords := fun _ v => Ok v;
     create_dir := Ok;
     jams_load := fun path =>
       if String.eqb path "in/k.jams" then Ok file_k
       else Raise (OtherException "FileNotFoundError" path);
     jams_save_error := fun _ _ => None;
     os_listdir := fun _ => Ok ["k.jams"; "sub"];
     os_path_isfile := fun path => String.eqb path "in/k.jams";
     os_path_join := fun a b => (a ++ "/" ++ b)%string |}.

(** A directory that holds a subdirectory and no file. *)
Definition no_files : Pipeline :=
  {| CHORD_NAMESPACES := ["chord"];
     ChordConverter := unit;
     ChordConverter_init := fun annotation_type => Ok tt;
     convert_chords := fun _ v => Ok v;
     create_dir := Ok;
     jams_load := fun path => Raise (OtherException "FileNotFoundError" path);
     jams_save_error := fun _ _ => None;
     os_listdir := fun _ => Ok ["sub"];
     os_path_isfile := fun _ => false;
     os_path_join := fun a b => (a ++ "/" ++ b)%string |}.

End SampleJams.

(** ** [choco/parsers/m21_parser.py]: scores *)

(** The part of [music21] that [process_score] uses.  [OffsetQL] is the
    type of offsets and quarter lengths (floats or fractions), with its
    subtraction, its equality (the one of dictionary keys), its order and
    its [repr].  A stream gives its parts and metadata objects; a part its
    number of chords, its expansion ([Expander(part).process()]), its
    measure offset map (the items of the dictionary, in order), its
    duration, its time and key signatures and its measures, in the order
    of the iteration; [new_Measure m] is [Measure(m)] and [int_of_str] is
    [int] on a string. *)
Class Music21 : Type := {
  OffsetQL : Type;
  ql_sub : OffsetQL -> OffsetQL -> OffsetQL;
  ql_eqb : OffsetQL -> OffsetQL -> bool;
  ql_leb : OffsetQL -> OffsetQL -> bool;
  ql_repr : OffsetQL -> string;
  M21Stream : Type;
  Part : Type;
  MeasureObj : Type;
  ChordObj : Type;
  TimeSig : Type;
  KeySig : Type;
  Meta : Type;
  converter_parse : string -> result M21Stream;
  is_Score : M21Stream -> bool;
  stream_len : M21Stream -> nat;
  stream_parts : M21Stream -> list Part;
  chord_count : Part -> nat;
  stream_metadata : M21Stream -> list Meta;
  meta_title : Meta -> option string;
  meta_composers : Meta -> option (list string);
  meta_composer : Meta -> option string;
  meta_movementName : Meta -> option string;
  expander_process : Part -> result Part;
  measureOffsetMap : Part -> list (OffsetQL * list MeasureObj);
  new_Measure : nat -> MeasureObj;
  measureNumberWithSuffix : MeasureObj -> string;
  measureNumber : MeasureObj -> Z;
  int_of_str : string -> result Z;
  part_duration : Part -> OffsetQL;
  time_signatures : Part -> list TimeSig;
  ts_numerator : TimeSig -> Z;
  ts_denominator : TimeSig -> Z;
  ts_offset : TimeSig -> OffsetQL;
  key_signatures : Part -> list KeySig;
  ks_is_Key : KeySig -> bool;
  ks_asKey : KeySig -> KeySig;
  ks_name : KeySig -> string;
  ks_offset : KeySig -> OffsetQL;
  part_measures : Part -> list MeasureObj;
  measure_duration : MeasureObj -> OffsetQL;
  measure_chords : MeasureObj -> list ChordObj;
  chord_is_symbol : ChordObj -> bool;
  chord_figure : ChordObj -> string;
  chord_pitches : ChordObj -> list string;
  chord_offset : ChordObj -> OffsetQL;
}.

Module Score.

(** The messages of the logger [choco.music21_parser]. *)
Inductive m21_event : Type :=
| InconsistentRepeats (title : option string).

(** What [measure_no] returns: a string with [measureNumberWithSuffix], an
    integer with [measureNumber]. *)
Inductive mno : Type :=
| MStr (s : string)
| MInt (n : Z).

(** [a == b] on such values. *)
Definition mno_eqb (a b : mno) : bool :=
  match a, b with
  | MStr s, MStr t => String.eqb s t
  | MInt n, MInt m => Z.eqb n m
  | _, _ => false
  end.

(** The two functions that the variable [measure_no] can hold. *)
Inductive measure_no_kind : Type := WithSuffix | Number.

Section WithMusic21.
Context `{Music21}.

Definition measure_no (kind : measure_no_kind) (m : MeasureObj) : mno :=
  match kind with
  | WithSuffix => MStr (measureNumberWithSuffix m)
  | Number => MInt (measureNumber m)
  end.

(** [int(x)] *)
Definition py_int (x : mno) : result Z :=
  match x with
  | MInt n => Ok n
  | MStr s => int_of_str s
  end.

(** A row of [time_signatures_ann] or [key_signatures_ann]: the
    signature, the measure, the integer 0 and the duration. *)
Record sig_row : Type := mkSigRow {
  sig_name : string;
  sig_measure : mno;
  sig_zero : Z;
  sig_duration : OffsetQL;
}.

(** A row of [chord_ann]: the chord, the measure, the offset and the
    duration. *)
Record chord_row : Type := mkChordRow {
  ch_name : string;
  ch_measure : mno;
  ch_offset : OffsetQL;
  ch_duration : OffsetQL;
}.

Record score_metadata : Type := mkScoreMeta {
  sm_title : option string;
  sm_composers : list (option string);
  sm_movement : option string;
  sm_expanded : bool;
  sm_duration : OffsetQL;
  sm_duration_m : Z;
}.

(** The argument of [process_score]: a path or a parsed stream. *)
Inductive score_arg : Type :=
| ScorePath (path : string)
| ScoreObject (score : M21Stream).

(** [d[offset]] on the items of a dictionary. *)
Definition offmap_get (offmap : list (OffsetQL * list MeasureObj)) (offset : OffsetQL)
  : result (list MeasureObj) :=
  match List.find (fun item => ql_eqb (fst item) offset) offmap with
  | Some item => Ok (snd item)
  | None => Raise (KeyError (ql_repr offset))
  end.

(** [max(keys)] *)
Definition max_key (keys : list OffsetQL) : result OffsetQL :=
  match keys with
  | [] => Raise (ValueError "max() arg is an empty sequence")
  | k :: keys' => Ok (fold_left (fun m k' => if ql_leb k' m then m else k') keys' k)
  end.

(** [seq[0]] and [seq[-1]] *)
Definition item_0 {A} (l : list A) : result A :=
  match l with
  | x :: _ => Ok x
  | [] => Raise (OtherException "IndexError" "list index out of range")
  end.

Definition item_last {A} (l : list A) : result A :=
  match last l with
  | Some x => Ok x
  | None => Raise (OtherException "IndexError" "list index out of range")
  end.

(** Lines 96 to 107: the part with the chords. *)
Definition select_chord_part (score : M21Stream) : result Part :=
  if negb (is_Score score) && (1 <? stream_len score)%nat
  then Raise (ValueError "This function expects a single tune")
  else
    let score_parts := stream_parts score in
    let chord_parts := List.filter (fun part => (0 <? chord_count part)%nat) score_parts in
    if negb (length chord_parts <=? 2)%nat
    then Raise (OtherException "AssertionError"
                  "Multiple parts with chord annotations found")
    else
      match chord_parts with
      | [] => Raise (OtherException "NoChordsInScoreException"
                       "No part with chord annotation found!")
      | chord_part :: _ => Ok chord_part
      end.

(** Lines 122 to 130.  The result holds the part, and the value of
    [metadata["expanded"]] with the function [measure_no] when they are
    set. *)
Definition expand_part (expand : bool) (title : option string) (chord_part : Part)
  : M (list m21_event) (Part * option (bool * measure_no_kind)) :=
  if expand then
    try_except
      (chord_part ← lift (expander_process chord_part);
       mret (chord_part, Some (true, WithSuffix)))
      (fun e =>
         if String.eqb (exn_class e) "ExpanderException"
         then Some (modify (fun events => events ++ [InconsistentRepeats title]);;
                    mret (chord_part, Some (false, Number)))
         else None)
  else mret (chord_part, None).

(** [metadata["expanded"]] *)
Definition get_expanded (expansion : option (bool * measure_no_kind))
  : result (bool * measure_no_kind) :=
  match expansion with
  | Some e => Ok e
  | None => Raise (KeyError "expanded")
  end.

(** Lines 134 and 135. *)
Definition renamed_offmap (offmap : list (OffsetQL * list MeasureObj))
  : list (OffsetQL * list MeasureObj) :=
  imap (fun m item => (fst item, [new_Measure m])) offmap.

(** [ann[-2][3] = d] *)
Definition set_sig_duration (d : OffsetQL) (r : sig_row) : sig_row :=
  {| sig_name := sig_name r; sig_measure := sig_measure r;
     sig_zero := sig_zero r; sig_duration := d |}.

Definition set_ch_duration (d : OffsetQL) (r : chord_row) : chord_row :=
  {| ch_name := ch_name r; ch_measure := ch_measure r;
     ch_offset := ch_offset r; ch_duration := d |}.

(** Lines 146 to 158, and 168 to 180: the body of the loops over the
    time signatures and over the key signatures, for a signature with its
    string and its offset. *)
Definition add_signature (kind : measure_no_kind)
  (measure_offmap : list (OffsetQL * list MeasureObj)) (chord_part_duration : OffsetQL)
  (ann : list sig_row) (sg : string * OffsetQL) : result (list sig_row) :=
  let '(signature_str, offset) := sg in
  if (length ann =? 0)%nat
     || match last ann with
        | Some r => negb (String.eqb (sig_name r) signature_str)
        | None => false
        end
  then
    measures ← offmap_get measure_offmap offset;
    measure ← item_0 measures;
    let ann := ann ++ [mkSigRow signature_str (measure_no kind measure) 0
                         (ql_sub chord_part_duration offset)] in
    if (1 <? length ann)%nat
    then mret (alter (set_sig_duration offset) (length ann - 2) ann)
    else mret ann
  else mret ann.

(** [for x in xs: acc = body(acc, x)] when the body may raise. *)
Fixpoint fold_result {A B} (body : B -> A -> result B) (xs : list A) (acc : B)
  : result B :=
  match xs with
  | [] => Ok acc
  | x :: xs' => acc' ← body acc x; fold_result body xs' acc'
  end.

(** [f"{x.numerator}/{x.denominator}"] *)
Definition ts_str (x : TimeSig) : string :=
  (pretty (ts_numerator x) ++ "/" ++ pretty (ts_denominator x))%string.

(** Lines 166 to 168: the key of a key signature. *)
Definition as_key (key_signature : KeySig) : KeySig :=
  if negb (ks_is_Key key_signature) then ks_asKey key_signature else key_signature.

(** Lines 189 to 197: the body of the loop over the chords of a
    measure. *)
Definition add_chord (measure_number : mno) (measure_duration : OffsetQL)
  (chord_ann : list chord_row) (chord : ChordObj) : list chord_row :=
  let chord_str :=
    if chord_is_symbol chord then chord_figure chord
    else String.concat "," (chord_pitches chord) in
  let chord_ann :=
    chord_ann ++ [mkChordRow chord_str measure_number (chord_offset chord)
                    (ql_sub measure_duration (chord_offset chord))] in
  if (1 <? length chord_ann)%nat
     && match chord_ann !! (length chord_ann - 2) with
        | Some r => mno_eqb (ch_measure r) measure_number
        | None => false
        end
  then alter (set_ch_duration (chord_offset chord)) (length chord_ann - 2) chord_ann
  else chord_ann.

(** Lines 184 to 197: the body of the loop over the measures, for the
    measure at index [i]. *)
Definition add_measure (kind : measure_no_kind) (rename_measures : bool)
  (chord_ann : list chord_row) (im : nat * MeasureObj) : list chord_row :=
  let '(i, measure) := im in
  let measure_number :=
    if rename_measures then MInt (Z.of_nat i) else measure_no kind measure in
  fold_left (add_chord measure_number (measure_duration measure))
    (measure_chords measure) chord_ann.

(** [enumerate(l)] *)
Definition enumerate {A} (l : list A) : list (nat * A) := imap (fun i x => (i, x)) l.

(** Lines 93 and 94. *)
Definition load_score (score : score_arg) : result M21Stream :=
  match score with
  | ScorePath path => converter_parse path
  | ScoreObject score => Ok score
  end.

Definition process_score (score : score_arg) (expand rename_measures : bool)
  : M (list m21_event)
      (score_metadata * list chord_row * list sig_row * list sig_row) :=
  score ← lift (load_score score);
  chord_part ← lift (select_chord_part score);
  meta ← lift (item_0 (stream_metadata score));
  let composers :=
    match meta_composers meta with
    | Some composers => map Some composers
    | None => [meta_composer meta]
    end in
  '(chord_part, expansion) ← expand_part expand (meta_title meta) chord_part;
  let measure_offmap := measureOffsetMap chord_part in
  '(expanded, kind) ← lift (get_expanded expansion);
  let measure_offmap :=
    if expanded && rename_measures then renamed_offmap measure_offmap
    else measure_offmap in
  let chord_part_duration := part_duration chord_part in
  last_offset ← lift (max_key (map fst measure_offmap));
  last_measures ← lift (offmap_get measure_offmap last_offset);
  last_measure ← lift (item_last last_measures);
  duration_m ← lift (py_int (measure_no kind last_measure));
  time_signatures_ann ←
    lift (fold_result (add_signature kind measure_offmap chord_part_duration)
            (map (fun ts => (ts_str ts, ts_offset ts)) (time_signatures chord_part)) []);
  key_signatures_ann ←
    lift (fold_result (add_signature kind measure_offmap chord_part_duration)
            (map (fun ks => (ks_name (as_key ks), ks_offset (as_key ks)))
               (key_signatures chord_part)) []);
  let chord_ann :=
    fold_left (add_measure kind rename_measures)
      (enumerate (part_measures chord_part)) [] in
  mret ({| sm_title := meta_title meta;
           sm_composers := composers;
           sm_movement := meta_movementName meta;
           sm_expanded := expanded;
           sm_duration := chord_part_duration;
           sm_duration_m := duration_m |},
        chord_ann, time_signatures_ann, key_signatures_ann).

End WithMusic21.

End Score.

Module SampleScore.

(** A stream is a number: 0 is a score with a chord part and a part
    without chords, 1 is a collection of two tunes, 2 is a score without
    chords.  A part and a measure are numbers, a chord is a figure with an
    offset, a signature a string with an offset.  [repeats] tells whether
    the expansion of the repeats succeeds. *)
Definition music21 (repeats : bool) : Music21 :=
  {| OffsetQL := Z;
     ql_sub := Z.sub;
     ql_eqb := Z.eqb;
     ql_leb := Z.leb;
     ql_repr := pretty;
     M21Stream := nat;
     Part := nat;
     MeasureObj := nat;
     ChordObj := string * Z;
     TimeSig := Z * Z * Z;
     KeySig := string * Z;
     Meta := unit;
     converter_parse := fun path =>
       if String.eqb path "tune.xml" then Ok 0
       else Raise (OtherException "FileNotFoundError" path);
     is_Score := fun s => negb (s =? 1)%nat;
     stream_len := fun s => if (s =? 1)%nat then 2 else 1;
     stream_parts := fun s => if (s =? 0)%nat then [0; 1] else [1];
     chord_count := fun p => if (p =? 0)%nat then 3 else 0;
     stream_metadata := fun _ => [tt];
     meta_title := fun _ => Some "Tune";
     meta_composers := fun _ => None;
     meta_composer := fun _ => Some "Anonymous";
     meta_movementName := fun _ => None;
     expander_process := fun p =>
       if repeats then Ok p
       else Raise (OtherException "ExpanderException" "inconsistent repeats");
     measureOffsetMap := fun _ => [(0%Z, [1]); (4%Z, [2])];
     new_Measure := fun m => m;
     measureNumberWithSuffix := fun m => pretty m;
     measureNumber := fun m => Z.of_nat m;
     int_of_str := fun s =>
       if String.eqb s "0" then Ok 0%Z
       else if String.eqb s "1" then Ok 1%Z
       else if String.eqb s "2" then Ok 2%Z
       else Raise (ValueError s);
     part_duration := fun _ => 8%Z;
     time_signatures := fun _ => [(4, 4, 0)%Z; (4, 4, 0)%Z; (3, 4, 4)%Z];
     ts_numerator := fun ts => fst (fst ts);
     ts_denominator := fun ts => snd (fst ts);
     ts_offset := fun ts => snd ts;
     key_signatures := fun _ => [("C major", 0%Z)];
     ks_is_Key := fun _ => true;
     ks_asKey := fun ks => ks;
     ks_name := fun ks => fst ks;
     ks_offset := fun ks => snd ks;
     part_measures := fun _ => [1; 2];
     measure_duration := fun _ => 4%Z;
     measure_chords := fun m =>
       if (m =? 1)%nat then [("C", 0%Z); ("G7", 2%Z)] else [("F", 0%Z)];
     chord_is_symbol := fun _ => true;
     chord_figure := fun c => fst c;
     chord_pitches := fun _ => [];
     chord_offset := fun c => snd c |}.

End SampleScore.

(** ** The measure markers *)

(** The alternatives of the pattern of line 26. *)
Definition measure_markers : list string :=
  ["|"; "LZ"; "K"; "Z"; "{"; "}"; "["; "]"].

(** The string ends with [L]; the string starts with [Z]: together they
    make the marker [LZ] across the boundary of two strings. *)
Fixpoint ends_with_L (s : string) : bool :=
  match s with
  | EmptyString => false
  | String c EmptyString => is_char c 76
  | String _ s' => ends_with_L s'
  end.

Definition starts_with_Z (s : string) : bool :=
  match s with
  | String d _ => is_char d 90
  | EmptyString => false
  end.

Module SampleTune.

(** A tune library in which every stage leaves its number behind: the
    string stages at the end of the string, the coda stage after a bar
    line of its own, the list stages as a measure at the end. *)
Definition numbering : PyRealParser :=
  {| Tune := string;
     title := fun t => t;
     Tune_init := fun get_measures song => Ok song;
     _cleanup_chord_string := fun s => Ok (s ++ "1")%string;
     _remove_annotations := fun s => Ok (s ++ "2")%string;
     _fill_long_repeats := fun s => Ok (s ++ "3")%string;
     _fill_codas := fun s => Ok (s ++ "|4")%string;
     _fill_single_double_repeats := fun ms => Ok (ms ++ ["5"]);
     _fill_slashes := fun ms => Ok (ms ++ ["6"]);
     unquote := fun url => url |}.

End SampleTune.

(** * Properties *)

(** ** The monad *)

Lemma bind_Ok {S A B} (m : M S A) (k : A -> M S B) s a s' :
  m s = (Ok a, s') -> (x ← m; k x) s = k a s'.
Proof. intros E. unfold mbind, M_bind. now rewrite E. Qed.

Lemma bind_Raise {S A B} (m : M S A) (k : A -> M S B) s e s' :
  m s = (Raise e, s') -> (x ← m; k x) s = (Raise e, s').
Proof. intros E. unfold mbind, M_bind. now rewrite E. Qed.

Lemma for_each_nil {S A B} (body : B -> A -> M S B) acc s :
  for_each [] body acc s = (Ok acc, s).
Proof. reflexivity. Qed.

Lemma for_each_cons {S A B} (body : B -> A -> M S B) x xs acc s :
  for_each (x :: xs) body acc s =
  match body acc x s with
  | (Ok acc', s') => for_each xs body acc' s'
  | (Raise e, s') => (Raise e, s')
  end.
Proof. reflexivity. Qed.

Lemma for_each_app {S A B} (body : B -> A -> M S B) xs ys acc s :
  for_each (xs ++ ys) body acc s =
  match for_each xs body acc s with
  | (Ok acc', s') => for_each ys body acc' s'
  | (Raise e, s') => (Raise e, s')
  end.
Proof.
  revert acc s. induction xs as [|x xs IH]; intros acc s; [reflexivity|].
  rewrite <- app_comm_cons, !for_each_cons.
  destruct (body acc x s) as [[acc'|e] s']; [apply IH | reflexivity].
Qed.

(** ** Key normalisation *)

Section KeyMode.
Context `{Pipeline}.

Lemma convert_key_observation_eq (c : Annotation) (o : Observation) (w : world) :
  convert_key_observation c o w =
  (Ok {| namespace := namespace c; data := data c ++ [key_observation_of o];
         annotation_metadata := annotation_metadata c |}, w).
Proof. reflexivity. Qed.

Lemma key_loop_eq (os : list Observation) (c : Annotation) (w : world) :
  for_each os convert_key_observation c w =
  (Ok {| namespace := namespace c; data := data c ++ map key_observation_of os;
         annotation_metadata := annotation_metadata c |}, w).
Proof.
  revert c. induction os as [|o os IH]; intros c.
  - rewrite for_each_nil, app_nil_r. now destruct c.
  - rewrite for_each_cons, convert_key_observation_eq, IH. cbn [namespace data annotation_metadata map].
    now rewrite <- app_assoc.
Qed.

End KeyMode.

(** ** The loops of [parse_jams] *)

Section Loops.
Context `{Pipeline}.

Lemma convert_chord_observation_eq ty c l o w :
  convert_chord_observation ty (c, l) o w =
  match convert_value ty (value o) with
  | Ok v =>
      (Ok (Annotation_append c (time o) (duration o) v (confidence o),
           set_chord_metadata (increment (value o, v)) l),
       logged_chords [o] w)
  | Raise e => (Raise e, logged_chords [o] w)
  end.
Proof.
  unfold convert_chord_observation, convert_value, logged_chords.
  unfold mbind, M_bind, result_bind, emit, modify, lift, mret, M_ret. cbn.
  destruct (ChordConverter_init ty) as [conv|e]; [|reflexivity].
  now destruct (convert_chords conv (value o)).
Qed.

Lemma logged_chords_app os1 os2 w :
  logged_chords os2 (logged_chords os1 w) = logged_chords (os1 ++ os2) w.
Proof. unfold logged_chords. cbn. now rewrite map_app, app_assoc. Qed.

Lemma logged_chords_nil w : logged_chords [] w = w.
Proof. unfold logged_chords. cbn. rewrite app_nil_r. now destruct w. Qed.

(** A chord loop that ends normally has converted every observation, in
    order, and has touched nothing but the converted annotation, the
    counters and the log. *)
Lemma chord_loop_Ok ty os c l w c' l' w' :
  for_each os (convert_chord_observation ty) (c, l) w = (Ok (c', l'), w') ->
  exists os',
    Forall2 (chord_observation_of ty) os os'
    /\ c' = {| namespace := namespace c; data := data c ++ os';
               annotation_metadata := annotation_metadata c |}
    /\ original_jams l' = original_jams l /\ jam l' = jam l
    /\ all_annotations l' = all_annotations l
    /\ w' = logged_chords os w.
Proof.
  revert c l w. induction os as [|o os IH]; intros c l w E.
  - rewrite for_each_nil in E. injection E as <- <- <-.
    exists []. rewrite app_nil_r, logged_chords_nil. destruct c; auto 10.
  - rewrite for_each_cons, convert_chord_observation_eq in E.
    destruct (convert_value ty (value o)) as [v|e] eqn:Ev; [|discriminate].
    apply IH in E as (os' & HF & -> & Ho & Hj & Ha & ->).
    exists ({| time := time o; duration := duration o; value := v;
               confidence := confidence o |} :: os').
    cbn in *. rewrite <- app_assoc. repeat split; auto.
    + constructor; [|exact HF]. now repeat split.
    + now rewrite logged_chords_app.
Qed.

(** A chord loop that raises hands on the exception of the converter. *)
Lemma chord_loop_Raise ty os c l w e w' :
  for_each os (convert_chord_observation ty) (c, l) w = (Raise e, w') ->
  exists o, o ∈ os /\ convert_value ty (value o) = Raise e.
Proof.
  revert c l w. induction os as [|o os IH]; intros c l w E.
  - discriminate.
  - rewrite for_each_cons, convert_chord_observation_eq in E.
    destruct (convert_value ty (value o)) as [v|e0] eqn:Ev.
    + apply IH in E as (o' & Hin & Ho'). exists o'. split; [now right|exact Ho'].
    + injection E as -> _. exists o. split; [now left|exact Ev].
Qed.

End Loops.

Section Annotations.
Context `{Pipeline}.

Lemma convert_annotation_Ok ty l a w l' w' :
  convert_annotation ty l a w = (Ok l', w') ->
  original_jams l' = original_jams l /\ jam l' = jam l
  /\ saved w' = saved w /\ csv w' = csv w
  /\ if convertible a
     then exists c, all_annotations l' = all_annotations l ++ [c]
                    /\ converted_from ty a c
     else all_annotations l' = all_annotations l.
Proof.
  unfold convert_annotation, convertible, converted_from.
  destruct (bool_decide (namespace a ∈ CHORD_NAMESPACES)) eqn:Hc; cbn [orb].
  - unfold mbind, M_bind.
    destruct (for_each (data a) _ _ w) as [[[c1 l1]|e] w1] eqn:E; [|discriminate].
    intros [= <- <-]. apply chord_loop_Ok in E as (os' & HF & -> & Ho & Hj & Ha & ->).
    cbn. repeat split; auto. rewrite Ha. eexists. split; [reflexivity|]. cbn. auto.
  - destruct (String.eqb (namespace a) "key_mode") eqn:Hk.
    + unfold mbind, M_bind. rewrite key_loop_eq. intros [= <- <-]. cbn.
      repeat split; auto. eexists. split; reflexivity.
    + intros [= <- <-]. auto.
Qed.

Lemma convert_annotation_Raise ty l a w e w' :
  convert_annotation ty l a w = (Raise e, w') ->
  namespace a ∈ CHORD_NAMESPACES
  /\ exists o, o ∈ data a /\ convert_value ty (value o) = Raise e.
Proof.
  unfold convert_annotation.
  destruct (bool_decide (namespace a ∈ CHORD_NAMESPACES)) eqn:Hc.
  - apply bool_decide_eq_true in Hc. unfold mbind, M_bind.
    destruct (for_each (data a) _ _ w) as [[[c1 l1]|e1] w1] eqn:E; [discriminate|].
    intros [= <- <-]. split; [exact Hc|]. eapply chord_loop_Raise, E.
  - destruct (String.eqb (namespace a) "key_mode").
    + unfold mbind, M_bind. rewrite key_loop_eq. discriminate.
    + discriminate.
Qed.

Lemma annotations_loop_Ok ty anns l w l' w' :
  for_each anns (convert_annotation ty) l w = (Ok l', w') ->
  original_jams l' = original_jams l /\ jam l' = jam l
  /\ saved w' = saved w /\ csv w' = csv w
  /\ exists cs, all_annotations l' = all_annotations l ++ cs
                /\ Forall2 (converted_from ty) (List.filter convertible anns) cs.
Proof.
  revert l w. induction anns as [|a anns IH]; intros l w E.
  - rewrite for_each_nil in E. injection E as <- <-.
    repeat split; auto. exists []. rewrite app_nil_r. split; [reflexivity|constructor].
  - rewrite for_each_cons in E.
    destruct (convert_annotation ty l a w) as [[l1|e] w1] eqn:E1; [|discriminate].
    apply convert_annotation_Ok in E1 as (Ho1 & Hj1 & Hs1 & Hc1 & Ha1).
    apply IH in E as (Ho & Hj & Hs & Hc & cs & Ha & HF).
    repeat split; try congruence.
    cbn [List.filter]. destruct (convertible a).
    + destruct Ha1 as (c & Ha1 & Hca). exists (c :: cs). split.
      * rewrite Ha, Ha1, <- app_assoc. reflexivity.
      * now constructor.
    + exists cs. split; [congruence|exact HF].
Qed.

Lemma annotations_loop_Raise ty anns l w e w' :
  for_each anns (convert_annotation ty) l w = (Raise e, w') ->
  exists a o, a ∈ anns /\ namespace a ∈ CHORD_NAMESPACES /\ o ∈ data a
              /\ convert_value ty (value o) = Raise e.
Proof.
  revert l w. induction anns as [|a anns IH]; intros l w E; [discriminate|].
  rewrite for_each_cons in E.
  destruct (convert_annotation ty l a w) as [[l1|e1] w1] eqn:E1.
  - apply IH in E as (a' & o & Hin & Hrest). exists a', o. split; [now right|exact Hrest].
  - injection E as -> _. apply convert_annotation_Raise in E1 as (Hns & o & Ho & Hv).
    exists a, o. split; [now left|auto].
Qed.

Lemma keep_originals_fold xs l :
  let l' := fold_left
              (fun l oa => if negb (String.eqb (namespace oa) "key_mode")
                           then jam_annotations_append oa l else l) xs l in
  annotations (jam l') = annotations (jam l) ++ List.filter not_key_mode xs
  /\ file_metadata (jam l') = file_metadata (jam l)
  /\ sandbox (jam l') = sandbox (jam l)
  /\ original_jams l' = original_jams l
  /\ all_annotations l' = all_annotations l
  /\ chord_metadata l' = chord_metadata l.
Proof.
  revert l. induction xs as [|x xs IH]; intros l; cbn zeta.
  - cbn. rewrite app_nil_r. repeat split.
  - cbn [fold_left List.filter]. unfold not_key_mode at 1.
    destruct (negb (String.eqb (namespace x) "key_mode")).
    + destruct (IH (jam_annotations_append x l)) as (-> & -> & -> & -> & -> & ->).
      cbn. rewrite <- app_assoc. repeat split.
    + apply IH.
Qed.

Lemma append_converted_fold xs l :
  let l' := fold_left (fun l a => jam_annotations_append a l) xs l in
  annotations (jam l') = annotations (jam l) ++ xs
  /\ file_metadata (jam l') = file_metadata (jam l)
  /\ sandbox (jam l') = sandbox (jam l)
  /\ original_jams l' = original_jams l
  /\ all_annotations l' = all_annotations l
  /\ chord_metadata l' = chord_metadata l.
Proof.
  revert l. induction xs as [|x xs IH]; intros l; cbn zeta.
  - cbn. rewrite app_nil_r. repeat split.
  - cbn [fold_left].
    destruct (IH (jam_annotations_append x l)) as (-> & -> & -> & -> & -> & ->).
    cbn. rewrite <- app_assoc. repeat split.
Qed.

(** What [parse_jams] holds when it reaches [jam.save]. *)
Lemma parse_jams_convert_Ok jams_path ty replace w l w' :
  parse_jams_convert jams_path ty replace w = (Ok l, w') ->
  exists j,
    jams_load jams_path = Ok j
    /\ original_jams l = j
    /\ file_metadata (jam l) = file_metadata j
    /\ sandbox (jam l) = sandbox j
    /\ annotations (jam l) =
         (if replace then [] else List.filter not_key_mode (annotations j))
         ++ all_annotations l
    /\ Forall2 (converted_from ty) (List.filter convertible (annotations j))
         (all_annotations l)
    /\ saved w' = saved w /\ csv w' = csv w.
Proof.
  unfold parse_jams_convert, mbind at 1, M_bind, lift.
  destruct (jams_load jams_path) as [j|e]; [|discriminate].
  unfold mbind, M_bind.
  match goal with
  | |- context [for_each ?xs ?b ?l0 w] =>
      destruct (for_each xs b l0 w) as [[l1|e] w1] eqn:E; [|discriminate]
  end.
  intros [= <- <-]. exists j. split; [reflexivity|].
  apply annotations_loop_Ok in E as (Ho & Hj & Hs & Hc & cs & Ha & HF).
  cbn in Ho, Hj, Ha. subst cs.
  unfold append_converted, keep_originals.
  destruct replace; cbn [negb].
  - destruct (append_converted_fold (all_annotations l1) l1) as (-> & -> & -> & -> & -> & _).
    rewrite Hj, Ho. cbn. auto 10.
  - match goal with
    | |- context [fold_left ?f (annotations (original_jams l1)) l1] =>
        set (l2 := fold_left f (annotations (original_jams l1)) l1)
    end.
    destruct (keep_originals_fold (annotations (original_jams l1)) l1)
      as (K1 & K2 & K3 & K4 & K5 & _). fold l2 in K1, K2, K3, K4, K5.
    destruct (append_converted_fold (all_annotations l2) l2) as (-> & -> & -> & -> & -> & _).
    rewrite K1, K2, K3, K4, K5, Hj, Ho. cbn. auto 10.
Qed.

End Annotations.

(** ** [parse_jams]: conversion and merge *)

Section ParseJams.
Context `{Pipeline}.

(** When the file loads and every chord converts, the conversion reaches
    [jam.save]. *)
Lemma parse_jams_convert_total jams_path ty replace w j :
  jams_load jams_path = Ok j ->
  (forall a o, a ∈ annotations j -> namespace a ∈ CHORD_NAMESPACES ->
               o ∈ data a -> is_Ok (convert_value ty (value o)) = true) ->
  exists l w', parse_jams_convert jams_path ty replace w = (Ok l, w').
Proof.
  intros Hj Hall.
  destruct (parse_jams_convert jams_path ty replace w) as [[l|e] w'] eqn:E;
    [now exists l, w'|exfalso].
  revert E. unfold parse_jams_convert, mbind at 1, M_bind, lift. rewrite Hj.
  unfold mbind, M_bind.
  match goal with
  | |- context [for_each ?xs ?b ?l0 w] =>
      destruct (for_each xs b l0 w) as [[l1|e1] w1] eqn:E; [discriminate|]
  end.
  intros _. apply annotations_loop_Raise in E as (a & o & Ha & Hns & Ho & Hv).
  specialize (Hall a o Ha Hns Ho). now rewrite Hv in Hall.
Qed.

(** Every exception of the conversion is one that [jams.load] or the
    chord converter raised. *)
Lemma parse_jams_convert_Raise jams_path ty replace w e w' :
  parse_jams_convert jams_path ty replace w = (Raise e, w') ->
  jams_load jams_path = Raise e
  \/ exists j a o, jams_load jams_path = Ok j /\ a ∈ annotations j
                   /\ namespace a ∈ CHORD_NAMESPACES /\ o ∈ data a
                   /\ convert_value ty (value o) = Raise e.
Proof.
  unfold parse_jams_convert, mbind at 1, M_bind, lift.
  destruct (jams_load jams_path) as [j|e0]; [|intros [= <- _]; now left].
  unfold mbind, M_bind.
  match goal with
  | |- context [for_each ?xs ?b ?l0 w] =>
      destruct (for_each xs b l0 w) as [[l1|e1] w1] eqn:E; [discriminate|]
  end.
  intros [= <- _]. right.
  apply annotations_loop_Raise in E as (a & o & Ha & Hns & Ho & Hv).
  now exists j, a, o.
Qed.

(** C3 (amended).  When [parse_jams] reaches [jam.save], the output
    container holds first, unless [replace] is true, the original
    annotations whose namespace is not [key_mode], in their order, and then
    the converted annotations, one for every original annotation that is a
    chord or a [key_mode] annotation.  So with [replace] true the container
    holds the converted annotations and nothing else, and with [replace]
    false every original annotation other than the [key_mode] ones is in
    it together with every converted annotation. *)
Theorem C3_merge_policy jams_path ty replace w l w' :
  parse_jams_convert jams_path ty replace w = (Ok l, w') ->
  jams_load jams_path = Ok (original_jams l)
  /\ annotations (jam l) =
       (if replace then []
        else List.filter not_key_mode (annotations (original_jams l)))
       ++ all_annotations l
  /\ Forall2 (converted_from ty)
       (List.filter convertible (annotations (original_jams l)))
       (all_annotations l)
  /\ (replace = true -> annotations (jam l) = all_annotations l)
  /\ (replace = false ->
      (forall oa, oa ∈ annotations (original_jams l) ->
                  namespace oa <> "key_mode" -> oa ∈ annotations (jam l))
      /\ (forall c, c ∈ all_annotations l -> c ∈ annotations (jam l))).
Proof.
  intros E. apply parse_jams_convert_Ok in E
    as (j & Hj & <- & _ & _ & Ha & HF & _ & _).
  split; [exact Hj|]. split; [exact Ha|]. split; [exact HF|]. split.
  - intros ->. exact Ha.
  - intros ->. split.
    + intros oa Hin Hns. rewrite Ha. apply elem_of_app. left.
      apply list_elem_of_In, filter_In. split; [now apply list_elem_of_In|].
      unfold not_key_mode. apply negb_true_iff, String.eqb_neq, Hns.
    + intros c Hc. rewrite Ha. apply elem_of_app. now right.
Qed.

(** C4.  When the file loads and its chords convert, [parse_jams] reaches
    [jam.save] with the loaded container as it was loaded, and for every
    original chord annotation the output container holds a [chord_harte]
    annotation whose observations are, one for one and in order, new
    observations with the time, the duration and the confidence of the
    original ones and the converted chord as value. *)
Theorem C4_new_observations jams_path ty replace w j :
  jams_load jams_path = Ok j ->
  (forall a o, a ∈ annotations j -> namespace a ∈ CHORD_NAMESPACES ->
               o ∈ data a -> is_Ok (convert_value ty (value o)) = true) ->
  exists l w',
    parse_jams_convert jams_path ty replace w = (Ok l, w')
    /\ original_jams l = j
    /\ forall a, a ∈ annotations j -> namespace a ∈ CHORD_NAMESPACES ->
       exists c, c ∈ annotations (jam l) /\ namespace c = "chord_harte"
         /\ Forall2 (chord_observation_of ty) (data a) (data c)
         /\ forall o, o ∈ data a ->
            exists o', o' ∈ data c /\ time o' = time o
              /\ duration o' = duration o /\ confidence o' = confidence o
              /\ convert_value ty (value o) = Ok (value o').
Proof.
  intros Hj Hall.
  destruct (parse_jams_convert_total jams_path ty replace w j Hj Hall)
    as (l & w' & E).
  exists l, w'. split; [exact E|].
  apply parse_jams_convert_Ok in E as (j' & Hj' & Ho & _ & _ & Ha & HF & _ & _).
  assert (j' = j) as -> by congruence.
  split; [exact Ho|]. intros a Hin Hns.
  assert (Hf : a ∈ List.filter convertible (annotations j)).
  { apply list_elem_of_In, filter_In. split; [now apply list_elem_of_In|].
    unfold convertible. now rewrite bool_decide_eq_true_2. }
  apply list_elem_of_lookup in Hf as [i Hi].
  destruct (Forall2_lookup_l _ _ _ _ _ HF Hi) as (c & Hc & Hac).
  unfold converted_from in Hac. rewrite bool_decide_eq_true_2 in Hac by exact Hns.
  destruct Hac as (Hcn & _ & Hos).
  exists c. split; [|split; [exact Hcn|split; [exact Hos|]]].
  - rewrite Ha. apply elem_of_app. right. eapply list_elem_of_lookup_2, Hc.
  - intros o Ho'. apply list_elem_of_lookup in Ho' as [k Hk].
    destruct (Forall2_lookup_l _ _ _ _ _ Hos Hk) as (o' & Ho'' & Hrel).
    exists o'. split; [eapply list_elem_of_lookup_2, Ho''|exact Hrel].
Qed.

(** C10.  When the file loads and its chords convert, [parse_jams]
    reaches [jam.save] with an output container that holds, for every
    [key_mode] annotation of the file, a [key_mode] annotation whose
    observations are, one for one and in order, new observations with the
    time, the duration and the confidence of the original ones and, as
    value, the original value after the replacement of [-] by [:], then
    of [maj] by [major], then of [min] by [minor]; that container is the
    one written when the output file can be opened.  [G-min] becomes
    [G:minor], and [G:minor] becomes [G:minoror]. *)
Theorem C10_key_mode_values jams_path ty replace w j :
  jams_load jams_path = Ok j ->
  (forall a o, a ∈ annotations j -> namespace a ∈ CHORD_NAMESPACES ->
               o ∈ data a -> is_Ok (convert_value ty (value o)) = true) ->
  exists l w',
    parse_jams_convert jams_path ty replace w = (Ok l, w')
    /\ (forall a, a ∈ annotations j -> namespace a ∉ CHORD_NAMESPACES ->
         namespace a = "key_mode" ->
         exists c, c ∈ annotations (jam l) /\ namespace c = "key_mode"
           /\ Forall2
                (fun o o' =>
                   time o' = time o /\ duration o' = duration o
                   /\ confidence o' = confidence o
                   /\ value o' =
                      PyStr.replace "min" "minor"
                        (PyStr.replace "maj" "major"
                           (PyStr.replace "-" ":" (value o))))
                (data a) (data c))
    /\ (forall output_path filename,
         jams_save_error (jam l) (os_path_join output_path filename) = None ->
         exists md w'',
           parse_jams jams_path output_path ty filename replace w
           = (Ok (Some md), w'')
           /\ saved w'' = saved w ++ [(os_path_join output_path filename, jam l)])
    /\ convert_key "G-min" = "G:minor"
    /\ convert_key "G:minor" = "G:minoror".
Proof.
  intros Hj Hall.
  destruct (parse_jams_convert_total jams_path ty replace w j Hj Hall)
    as (l & w' & E).
  exists l, w'. split; [exact E|].
  pose proof (parse_jams_convert_Ok _ _ _ _ _ _ E)
    as (j' & Hj' & Ho & _ & _ & Ha & HF & Hs & _).
  assert (j' = j) as -> by congruence.
  split; [|split; [|split; reflexivity]].
  - intros a Hin Hns Hk.
    assert (Hf : a ∈ List.filter convertible (annotations j)).
    { apply list_elem_of_In, filter_In. split; [now apply list_elem_of_In|].
      unfold convertible. rewrite Hk. apply orb_true_r. }
    apply list_elem_of_lookup in Hf as [i Hi].
    destruct (Forall2_lookup_l _ _ _ _ _ HF Hi) as (c & Hc & Hac).
    unfold converted_from in Hac. rewrite bool_decide_eq_false_2 in Hac by exact Hns.
    exists c. split; [|split].
    + rewrite Ha. apply elem_of_app. right. eapply list_elem_of_lookup_2, Hc.
    + now subst c.
    + subst c. cbn [data]. clear. induction (data a) as [|o os IH]; constructor.
      * now repeat split.
      * exact IH.
  - intros output_path filename Hsave. unfold parse_jams, mbind at 1, M_bind.
    rewrite E. unfold try_except, jam_save, mbind, M_bind. rewrite Hsave.
    eexists _, _. split; [reflexivity|]. cbn. now rewrite Hs.
Qed.

End ParseJams.

Lemma C3_merge_policy_witness :
  exists l w',
    parse_jams_convert (H := Fixture.pipeline ["a.jams"] "none")
      "in/a.jams" "leadsheet" false empty_world = (Ok l, w')
    /\ annotations (jam l) =
         List.filter not_key_mode (annotations (original_jams l))
         ++ all_annotations l.
Proof.
  eexists _, _. split; [vm_compute; reflexivity|].
  refine (proj1 (proj2 (C3_merge_policy (H := Fixture.pipeline ["a.jams"] "none")
            "in/a.jams" "leadsheet" false empty_world _ _ _))).
  vm_compute. reflexivity.
Defined.

(** With [replace] false, the original [key_mode] annotation of the file
    is not in the output container. *)
Lemma C3_counterexample :
  exists l w',
    parse_jams_convert (H := Fixture.pipeline ["a.jams"] "none")
      "in/a.jams" "leadsheet" false empty_world = (Ok l, w')
    /\ Fixture.key_G_min ∈ annotations (original_jams l)
    /\ ~ Fixture.key_G_min ∈ annotations (jam l).
Proof.
  eexists _, _. split; [vm_compute; reflexivity|]. cbn [original_jams jam annotations].
  split.
  - apply list_elem_of_In. right. left. reflexivity.
  - intros Hin. apply list_elem_of_In in Hin.
    destruct Hin as [E|[E|[E|[]]]]; discriminate E.
Qed.

Lemma C4_new_observations_witness :
  exists l w',
    parse_jams_convert (H := Fixture.pipeline ["a.jams"] "none")
      "in/a.jams" "leadsheet" true empty_world = (Ok l, w')
    /\ original_jams l = Fixture.file_a.
Proof.
  destruct (C4_new_observations (H := Fixture.pipeline ["a.jams"] "none")
              "in/a.jams" "leadsheet" true empty_world Fixture.file_a)
    as (l & w' & E & Ho & _).
  - reflexivity.
  - intros a o Ha Hns Ho. apply list_elem_of_In in Ha.
    destruct Ha as [<-|[<-|[]]].
    + apply list_elem_of_In in Ho. destruct Ho as [<-|[<-|[]]]; reflexivity.
    + apply list_elem_of_In in Hns. destruct Hns as [E|[E|[]]]; discriminate E.
  - now exists l, w'.
Defined.

Lemma C10_key_mode_values_witness :
  exists l w' c,
    parse_jams_convert (H := Fixture.pipeline ["a.jams"] "none")
      "in/a.jams" "leadsheet" false empty_world = (Ok l, w')
    /\ c ∈ annotations (jam l) /\ namespace c = "key_mode"
    /\ map value (data c) = ["G:minor"].
Proof.
  destruct (C10_key_mode_values (H := Fixture.pipeline ["a.jams"] "none")
              "in/a.jams" "leadsheet" false empty_world Fixture.file_a)
    as (l & w' & E & Hkey & _).
  - reflexivity.
  - intros a o Ha Hns Ho. apply list_elem_of_In in Ha.
    destruct Ha as [<-|[<-|[]]].
    + apply list_elem_of_In in Ho. destruct Ho as [<-|[<-|[]]]; reflexivity.
    + apply list_elem_of_In in Hns. destruct Hns as [E|[E|[]]]; discriminate E.
  - destruct (Hkey Fixture.key_G_min) as (c & Hc & Hn & HF).
    + apply list_elem_of_In. right. left. reflexivity.
    + intros Hin. apply list_elem_of_In in Hin.
      destruct Hin as [E0|[E0|[]]]; discriminate E0.
    + reflexivity.
    + exists l, w', c. split; [exact E|]. split; [exact Hc|]. split; [exact Hn|].
      cbn [Fixture.key_G_min data] in HF.
      destruct (data c) as [|o' [|o'' os]];
        [inversion HF| |inversion HF as [|? ? ? ? _ HF']; inversion HF'].
      inversion HF as [|? ? ? ? (_ & _ & _ & Hv) _]. cbn [map]. now rewrite Hv.
Defined.

(** ** [parse_jams]: saving, and the exceptions *)

Section Saving.
Context `{Pipeline}.

Lemma parse_jams_eq jams_path output_path ty filename replace w :
  parse_jams jams_path output_path ty filename replace w =
  match parse_jams_convert jams_path ty replace w with
  | (Ok l, w1) =>
      match jams_save_error (jam l) (os_path_join output_path filename) with
      | None =>
          (Ok (Some (chord_metadata l)),
           with_saved (os_path_join output_path filename) (jam l) w1)
      | Some e =>
          (Raise (raised_by_open e (os_path_join output_path filename)), w1)
      end
  | (Raise e, w1) => (Raise e, w1)
  end.
Proof.
  unfold parse_jams, mbind at 1, M_bind.
  destruct (parse_jams_convert jams_path ty replace w) as [[l|e] w1]; [|reflexivity].
  unfold try_except, jam_save, mbind, M_bind.
  destruct (jams_save_error (jam l) (os_path_join output_path filename)) as [e|];
    reflexivity.
Qed.

(** The [except] clause of [parse_jams] is never entered: the function
    returns the metadata or raises, it never returns [None] and never
    logs that a file could not be saved. *)
Lemma parse_jams_not_None jams_path output_path ty filename replace w r w' :
  parse_jams jams_path output_path ty filename replace w = (Ok r, w') ->
  exists md, r = Some md.
Proof.
  rewrite parse_jams_eq.
  destruct (parse_jams_convert jams_path ty replace w) as [[l|e] w1];
    [|discriminate].
  destruct (jams_save_error (jam l) (os_path_join output_path filename));
    [discriminate|].
  intros [= <- _]. now eexists.
Qed.

(** An output file that cannot be opened stops the loop over the files:
    the exception leaves [parse_jams] and [convert_file], and nothing is
    logged about it. *)
Lemma convert_file_open_error jams_path dir ty replace metadata file w l w1 e :
  os_path_isfile (os_path_join jams_path file) = true ->
  parse_jams_convert (os_path_join jams_path file) ty replace
    (with_event (ConvertingFile file) w) = (Ok l, w1) ->
  jams_save_error (jam l) (os_path_join dir file) = Some e ->
  convert_file jams_path dir ty replace metadata file w =
  (Raise (raised_by_open e (os_path_join dir file)), w1).
Proof.
  intros Hf Hc Hs. unfold convert_file. rewrite Hf.
  unfold mbind, M_bind, emit, modify. fold (with_event (ConvertingFile file) w).
  rewrite parse_jams_eq, Hc, Hs. reflexivity.
Qed.

End Saving.

(** ** [Parser]: the dialect table *)

Section Dispatch.
Context `{Lark} `{Pipeline}.

Lemma DIALECT_MAP_lookup dialect :
  Parser.DIALECT_MAP !! dialect =
  if String.eqb dialect "abc_music21" then Some abc_music21
  else if String.eqb dialect "leadsheet_music21" then Some leadsheet_music21
  else None.
Proof.
  unfold Parser.DIALECT_MAP.
  destruct (String.eqb_spec dialect "abc_music21") as [->|Ha].
  - apply lookup_insert_eq.
  - rewrite lookup_insert_ne by congruence.
    destruct (String.eqb_spec dialect "leadsheet_music21") as [->|Hl].
    + apply lookup_insert_eq.
    + rewrite lookup_insert_ne by congruence. apply lookup_empty.
Qed.

(** C6 (amended).  For every dialect identifier other than the two of the
    table, the construction of the parser raises the [KeyError] of the
    lookup, with the identifier.  [convert] with an annotation type that
    is not registered fails with [UnsupportedAnnotationType], and only
    then; for a registered annotation type a failure of the parser or of
    the encoder is handed on as a conversion failure that carries its
    stage, the original token and the failure itself, and that is the
    only way in which the conversion of a registered type fails. *)
Theorem C6_unregistered_and_failures :
  (forall dialect,
     dialect <> "leadsheet_music21" -> dialect <> "abc_music21" ->
     Parser.DIALECT_MAP !! dialect = None
     /\ Parser.__init__ dialect = Raise (KeyError dialect))
  /\ (forall table raw_value annotation_type,
        table !! annotation_type = None ->
        ConversionDispatch.convert table raw_value annotation_type =
        ConversionDispatch.Failed
          (ConversionDispatch.UnsupportedAnnotationType annotation_type))
  /\ (forall table raw_value annotation_type x,
        ConversionDispatch.convert table raw_value annotation_type =
        ConversionDispatch.Failed (ConversionDispatch.UnsupportedAnnotationType x) ->
        table !! annotation_type = None /\ x = annotation_type)
  /\ (forall table raw_value annotation_type d,
        table !! annotation_type = Some d ->
        (forall e,
           ConversionDispatch.parse d raw_value = Raise e ->
           ConversionDispatch.convert table raw_value annotation_type =
           ConversionDispatch.Failed
             (ConversionDispatch.ConversionFailure
                ConversionDispatch.Parsing raw_value e))
        /\ (forall tree e,
              ConversionDispatch.parse d raw_value = Ok tree ->
              ConversionDispatch.encode d tree = Raise e ->
              ConversionDispatch.convert table raw_value annotation_type =
              ConversionDispatch.Failed
                (ConversionDispatch.ConversionFailure
                   ConversionDispatch.Encoding raw_value e))
        /\ (forall err,
              ConversionDispatch.convert table raw_value annotation_type =
              ConversionDispatch.Failed err ->
              exists tag e,
                err = ConversionDispatch.ConversionFailure tag raw_value e
                /\ match tag with
                   | ConversionDispatch.Parsing =>
                       ConversionDispatch.parse d raw_value = Raise e
                   | ConversionDispatch.Encoding =>
                       exists tree,
                         ConversionDispatch.parse d raw_value = Ok tree
                         /\ ConversionDispatch.encode d tree = Raise e
                   end)).
Proof.
  split; [|split; [|split]].
  - intros dialect Hl Ha. unfold Parser.__init__, getitem. rewrite DIALECT_MAP_lookup.
    apply String.eqb_neq in Hl, Ha. now rewrite Ha, Hl.
  - intros table raw_value ty Hn. unfold ConversionDispatch.convert. now rewrite Hn.
  - intros table raw_value ty x. unfold ConversionDispatch.convert.
    destruct (table !! ty) as [d|]; [|now intros [= <-]].
    destruct (ConversionDispatch.parse d raw_value) as [tree|e]; [|discriminate].
    destruct (ConversionDispatch.encode d tree); discriminate.
  - intros table raw_value ty d Hd. unfold ConversionDispatch.convert. rewrite Hd.
    split; [|split].
    + now intros e ->.
    + now intros tree e -> ->.
    + intros err.
      destruct (ConversionDispatch.parse d raw_value) as [tree|e] eqn:Ep.
      * destruct (ConversionDispatch.encode d tree) as [v|e] eqn:Ee; [discriminate|].
        intros [= <-]. exists ConversionDispatch.Encoding, e.
        split; [reflexivity|now exists tree].
      * intros [= <-]. now exists ConversionDispatch.Parsing, e.
Qed.

End Dispatch.

Lemma C6_unregistered_and_failures_witness :
  Parser.__init__ (H := Fixture.lark) "roman_numeral" = Raise (KeyError "roman_numeral")
  /\ ConversionDispatch.convert ConversionDispatch.sample_table "C" "roman_numeral"
     = ConversionDispatch.Failed
         (ConversionDispatch.UnsupportedAnnotationType "roman_numeral")
  /\ ConversionDispatch.convert ConversionDispatch.sample_table "?" "leadsheet"
     = ConversionDispatch.Failed
         (ConversionDispatch.ConversionFailure ConversionDispatch.Parsing "?"
            (OtherException "UnexpectedInput" "no terminal matches"))
  /\ ConversionDispatch.convert ConversionDispatch.sample_table "N" "leadsheet"
     = ConversionDispatch.Failed
         (ConversionDispatch.ConversionFailure ConversionDispatch.Encoding "N"
            (ValueError "no chord")).
Proof.
  pose proof (C6_unregistered_and_failures (H := Fixture.lark))
    as (Hkey & Hnone & _ & Hsome).
  split; [apply Hkey; discriminate|].
  split; [apply Hnone; reflexivity|].
  destruct (Hsome ConversionDispatch.sample_table "?" "leadsheet"
              ConversionDispatch.leadsheet eq_refl) as (Hp & _ & _).
  destruct (Hsome ConversionDispatch.sample_table "N" "leadsheet"
              ConversionDispatch.leadsheet eq_refl) as (_ & He & _).
  split; [apply Hp; reflexivity|].
  apply (He "N"); reflexivity.
Defined.

(** The parser for a dialect that is not in the table fails with a
    [KeyError], not with an error of a class named
    [UnsupportedAnnotationType]. *)
Lemma C6_counterexample :
  Parser.DIALECT_MAP (H := Fixture.lark) !! "roman_numeral" = None
  /\ exists e, Parser.__init__ (H := Fixture.lark) "roman_numeral" = Raise e
               /\ exn_class e = "KeyError"
               /\ exn_class e <> "UnsupportedAnnotationType".
Proof.
  split; [vm_compute; reflexivity|].
  exists (KeyError "roman_numeral").
  split; [vm_compute; reflexivity|]. split; [reflexivity|discriminate].
Qed.

(** ** The counters of one file *)

Lemma increment_lookup (q p : string * string) (d : gmap (string * string) Z) :
  increment q d !! p =
  if bool_decide (q = p) then Some (default 0 (d !! p) + 1)%Z else d !! p.
Proof.
  unfold increment. case_bool_decide as Hq.
  - subst q. apply lookup_insert_eq.
  - now apply lookup_insert_ne.
Qed.

Lemma count_pairs_app (ps qs : list (string * string)) d :
  count_pairs (ps ++ qs) d = count_pairs qs (count_pairs ps d).
Proof. apply fold_left_app. Qed.

(** Within one dictionary the counter of a pair grows by the number of
    times the pair is counted. *)
Lemma count_pairs_lookup (pairs : list (string * string)) d p :
  count_pairs pairs d !! p =
  match d !! p with
  | Some n => Some (n + occurrences p pairs)%Z
  | None => if (occurrences p pairs =? 0)%Z then None
            else Some (occurrences p pairs)
  end.
Proof.
  revert d. induction pairs as [|q pairs IH]; intros d.
  - unfold count_pairs, occurrences. cbn.
    destruct (d !! p) as [n|]; [apply (f_equal Some); lia|reflexivity].
  - change (count_pairs (q :: pairs) d) with (count_pairs pairs (increment q d)).
    rewrite IH, increment_lookup. unfold occurrences. cbn [List.filter].
    destruct (bool_decide (q = p)); cbn [length].
    + destruct (d !! p) as [n|]; cbn [default from_option]; unfold id.
      * apply (f_equal Some). lia.
      * destruct (Z.eqb_spec (Z.of_nat (S (length (List.filter
                   (fun q0 => bool_decide (q0 = p)) pairs)))) 0); [lia|].
        apply (f_equal Some). lia.
    + reflexivity.
Qed.

Section Counters.
Context `{Pipeline}.

Lemma chord_loop_metadata ty os c l w c' l' w' :
  for_each os (convert_chord_observation ty) (c, l) w = (Ok (c', l'), w') ->
  chord_metadata l' = count_pairs (observed_pairs ty os) (chord_metadata l).
Proof.
  revert c l w. induction os as [|o os IH]; intros c l w E.
  - rewrite for_each_nil in E. now injection E as <- <- <-.
  - rewrite for_each_cons, convert_chord_observation_eq in E.
    unfold observed_pairs. cbn [omap list_omap].
    destruct (convert_value ty (value o)) as [v|e] eqn:Ev; [|discriminate].
    apply IH in E. rewrite E. reflexivity.
Qed.

Lemma annotations_loop_metadata ty anns l w l' w' :
  for_each anns (convert_annotation ty) l w = (Ok l', w') ->
  chord_metadata l' = count_pairs (file_pairs ty anns) (chord_metadata l).
Proof.
  revert l w. induction anns as [|a anns IH]; intros l w E.
  - rewrite for_each_nil in E. now injection E as <- <-.
  - rewrite for_each_cons in E.
    destruct (convert_annotation ty l a w) as [[l1|e] w1] eqn:E1; [|discriminate].
    apply IH in E. rewrite E. unfold file_pairs. cbn [flat_map].
    rewrite count_pairs_app. f_equal.
    revert E1. unfold convert_annotation.
    destruct (bool_decide (namespace a ∈ CHORD_NAMESPACES)).
    + unfold mbind, M_bind.
      destruct (for_each (data a) _ _ w) as [[[c1 l2]|e] w2] eqn:E2; [|discriminate].
      intros [= <- <-]. apply chord_loop_metadata in E2. exact E2.
    + destruct (String.eqb (namespace a) "key_mode").
      * unfold mbind, M_bind. rewrite key_loop_eq. now intros [= <- <-].
      * now intros [= <- <-].
Qed.

(** In the metadata that [parse_jams] returns for a file, the count of a
    pair is the number of times the file has it. *)
Lemma parse_jams_convert_metadata jams_path ty replace w l w' pair :
  parse_jams_convert jams_path ty replace w = (Ok l, w') ->
  let k := occurrences pair (file_pairs ty (annotations (original_jams l))) in
  chord_metadata l !! pair = if (k =? 0)%Z then None else Some k.
Proof.
  intros E. pose proof (parse_jams_convert_Ok _ _ _ _ _ _ E) as (j & Hj & <- & _).
  revert E. unfold parse_jams_convert, mbind at 1, M_bind, lift. rewrite Hj.
  unfold mbind, M_bind.
  match goal with
  | |- context [for_each ?xs ?b ?l0 w] =>
      destruct (for_each xs b l0 w) as [[l1|e] w1] eqn:E; [|discriminate]
  end.
  intros [= <- <-].
  pose proof (annotations_loop_Ok _ _ _ _ _ _ E) as (Ho1 & _). cbn in Ho1.
  apply annotations_loop_metadata in E. cbn in E.
  unfold append_converted, keep_originals.
  assert (Hm : forall l2, chord_metadata
            (fold_left (fun l a => jam_annotations_append a l) (all_annotations l2) l2)
            = chord_metadata l2).
  { intros l2. apply (append_converted_fold (all_annotations l2) l2). }
  assert (Ho : forall l2, original_jams
            (fold_left (fun l a => jam_annotations_append a l) (all_annotations l2) l2)
            = original_jams l2).
  { intros l2. apply (append_converted_fold (all_annotations l2) l2). }
  rewrite Hm, Ho.
  assert (Hk : chord_metadata (if negb replace
            then fold_left (fun l oa => if negb (String.eqb (namespace oa) "key_mode")
                                        then jam_annotations_append oa l else l)
                   (annotations (original_jams l1)) l1 else l1) = chord_metadata l1
          /\ original_jams (if negb replace
            then fold_left (fun l oa => if negb (String.eqb (namespace oa) "key_mode")
                                        then jam_annotations_append oa l else l)
                   (annotations (original_jams l1)) l1 else l1) = original_jams l1).
  { destruct replace; cbn [negb]; [split; reflexivity|].
    split; apply (keep_originals_fold (annotations (original_jams l1)) l1). }
  destruct Hk as [-> ->]. rewrite Ho1, E.
  rewrite count_pairs_lookup, lookup_empty. reflexivity.
Qed.

End Counters.

(** ** [parse_jams_dataset]: the aggregate metadata *)

(** [update] keeps, for a pair that the file has, the count of the file
    alone. *)
Lemma dict_update_lookup_file (metadata file_metadata : gmap (string * string) Z)
  (pair : string * string) (n : Z) :
  file_metadata !! pair = Some n ->
  exists m, dict_update metadata (Some file_metadata) = Ok m /\ m !! pair = Some n.
Proof.
  intros Hp. eexists. split; [reflexivity|]. now apply lookup_union_Some_l.
Qed.

Lemma dict_update_lookup_other (metadata file_metadata : gmap (string * string) Z)
  (pair : string * string) :
  file_metadata !! pair = None ->
  exists m, dict_update metadata (Some file_metadata) = Ok m
            /\ m !! pair = metadata !! pair.
Proof.
  intros Hp. eexists. split; [reflexivity|]. now apply lookup_union_r.
Qed.

Section Overwrite.
Context `{Pipeline}.

(** After a file that is saved, the count of a pair that the file has is
    the count of that file alone, whatever the count was before. *)
Lemma convert_file_overwrites jams_path dir ty replace metadata file w l w1 pair :
  os_path_isfile (os_path_join jams_path file) = true ->
  parse_jams_convert (os_path_join jams_path file) ty replace
    (with_event (ConvertingFile file) w) = (Ok l, w1) ->
  jams_save_error (jam l) (os_path_join dir file) = None ->
  (0 < occurrences pair (file_pairs ty (annotations (original_jams l))))%Z ->
  exists metadata' w',
    convert_file jams_path dir ty replace metadata file w = (Ok metadata', w')
    /\ metadata' !! pair
       = Some (occurrences pair (file_pairs ty (annotations (original_jams l)))).
Proof.
  intros Hf Hc Hs Hk. unfold convert_file. rewrite Hf.
  unfold mbind, M_bind, emit, modify. fold (with_event (ConvertingFile file) w).
  rewrite parse_jams_eq, Hc, Hs. unfold lift.
  pose proof (parse_jams_convert_metadata _ _ _ _ _ _ pair Hc) as Hm.
  cbn zeta in Hm.
  destruct (Z.eqb_spec (occurrences pair (file_pairs ty (annotations (original_jams l)))) 0)
    as [E0|_]; [lia|].
  destruct (dict_update_lookup_file metadata (chord_metadata l) pair _ Hm)
    as (m & -> & Hl).
  now eexists _, _.
Qed.

End Overwrite.

(** The rows of the table have distinct pairs. *)
Lemma metadata_rows_NoDup (metadata : gmap (string * string) Z) :
  NoDup (map (fun r : row => (fst (fst r), snd (fst r))) (metadata_rows metadata)).
Proof.
  unfold metadata_rows. rewrite map_map.
  erewrite map_ext; [apply (NoDup_fst_map_to_list metadata)|].
  now intros [[o c] n].
Qed.

(** C1 (the code departs from it).  In a directory with [a.jams], where
    the chord [C] occurs twice, and [b.jams], where it occurs once, the
    pair of [C] and [C:maj] is converted three times; its count is 2 after
    the first file and 1 after the second, and 1 is the count with which
    the loop over the files ends. *)
Theorem C1_update_overwrites_counts :
  exists m1 w1 m2 w2,
    convert_file (H := Fixture.pipeline ["a.jams"; "b.jams"] "none")
      "in" "out/jams_converted" "leadsheet" false ∅ "a.jams" empty_world
    = (Ok m1, w1)
    /\ m1 !! ("C", "C:maj") = Some 2%Z
    /\ convert_file (H := Fixture.pipeline ["a.jams"; "b.jams"] "none")
         "in" "out/jams_converted" "leadsheet" false m1 "b.jams" w1
       = (Ok m2, w2)
    /\ m2 !! ("C", "C:maj") = Some 1%Z
    /\ collect_metadata (H := Fixture.pipeline ["a.jams"; "b.jams"] "none")
         "in" "out" "leadsheet" false empty_world = (Ok m2, w2)
    /\ conversions_of "C" (log w2) = 3
    /\ metadata_rows m2 = [("C", "C:maj", 1%Z)].
Proof.
  eexists _, _, _, _.
  split; [vm_compute; reflexivity|].
  split; [vm_compute; reflexivity|].
  split; [vm_compute; reflexivity|].
  repeat split; vm_compute; reflexivity.
Qed.

(** C2 (the code departs from it).  In a directory with [a.jams] and
    [b.jams] where the output file for [a.jams] cannot be opened for
    writing, [jam.save] raises [PermissionError].  The [except] clause of
    [parse_jams] names [SchemaError] alone: the exception leaves
    [parse_jams] and nothing is logged about the file.  The run over the
    directory ends with the same exception: it never reaches [b.jams], it
    saves nothing and it writes no table. *)
Theorem C2_save_error_aborts_run :
  exists w1 w2,
    parse_jams (H := Fixture.pipeline ["a.jams"; "b.jams"] "a.jams")
      "in/a.jams" "out/jams_converted" "leadsheet" "a.jams" false empty_world
    = (Raise (OtherException "PermissionError" "out/jams_converted/a.jams"), w1)
    /\ (forall jams_path err, ~ CouldNotSave jams_path err ∈ log w1)
    /\ parse_jams_dataset (H := Fixture.pipeline ["a.jams"; "b.jams"] "a.jams")
         "in" "out" "leadsheet" false empty_world
       = (Raise (OtherException "PermissionError" "out/jams_converted/a.jams"), w2)
    /\ (forall jams_path err, ~ CouldNotSave jams_path err ∈ log w2)
    /\ ~ ConvertingFile "b.jams" ∈ log w2
    /\ saved w2 = []
    /\ csv w2 = [].
Proof.
  eexists _, _.
  split; [vm_compute; reflexivity|].
  split.
  { cbn [log]. intros jams_path err Hin. apply list_elem_of_In in Hin.
    repeat (destruct Hin as [E|Hin]; [discriminate E|]). exact Hin. }
  split; [vm_compute; reflexivity|].
  cbn [csv saved log]. split; [|split; [|split; reflexivity]].
  - intros jams_path err Hin. apply list_elem_of_In in Hin.
    repeat (destruct Hin as [E|Hin]; [discriminate E|]). exact Hin.
  - intros Hin. apply list_elem_of_In in Hin.
    repeat (destruct Hin as [E|Hin]; [discriminate E|]). exact Hin.
Qed.

(** ** Python strings: the scanning loops *)

Module PyStrFacts.
Import PyStr.

Lemma drop_0 s : drop 0 s = s.
Proof. now destruct s. Qed.

Lemma replace_from_skip old new k s :
  replace_from old new k s = replace_from old new 0 (drop k s).
Proof.
  revert k. induction s as [|c s IH]; intros [|k]; try reflexivity.
  cbn [drop replace_from]. apply IH.
Qed.

(** The three equations of [replace] for a non-empty [old]. *)
Lemma replace_empty old new :
  old <> EmptyString -> replace old new EmptyString = EmptyString.
Proof. now destruct old. Qed.

Lemma replace_match old new s :
  old <> EmptyString -> startswith old s = true ->
  replace old new s = (new ++ replace old new (drop (String.length old) s))%string.
Proof.
  intros Hne Hp. destruct old as [|a old]; [congruence|]. unfold replace.
  destruct s as [|c s]; [discriminate|].
  cbn [replace_from]. rewrite Hp. f_equal.
  rewrite replace_from_skip.
  replace (String.length (String a old) - 1) with (String.length old) by (cbn; lia).
  reflexivity.
Qed.

Lemma replace_no_match old new c s :
  old <> EmptyString -> startswith old (String c s) = false ->
  replace old new (String c s) = String c (replace old new s).
Proof.
  intros Hne Hp. destruct old as [|a old]; [congruence|]. unfold replace.
  cbn [replace_from]. now rewrite Hp.
Qed.

Lemma re_split_from_skip f k s :
  re_split_from f k s = re_split_from f 0 (drop k s).
Proof.
  revert k. induction s as [|c s IH]; intros [|k]; try reflexivity.
  cbn [drop re_split_from]. apply IH.
Qed.

Lemma re_split_from_nonempty f k s : re_split_from f k s <> [].
Proof.
  revert k. induction s as [|c s IH]; intros k; [discriminate|].
  cbn [re_split_from]. destruct k as [|k]; [|apply IH].
  destruct (f (String c s)); [|discriminate].
  destruct (re_split_from f 0 s); discriminate.
Qed.

(** The equations of [re.split]. *)
Lemma re_split_match f c s k :
  f (String c s) = S k ->
  re_split f (String c s) = EmptyString :: re_split f (drop k s).
Proof.
  intros Hf. unfold re_split. cbn [re_split_from]. rewrite Hf.
  now rewrite re_split_from_skip.
Qed.

Lemma re_split_no_match f c s :
  f (String c s) = 0 ->
  exists p ps, re_split f s = p :: ps /\ re_split f (String c s) = String c p :: ps.
Proof.
  intros Hf. unfold re_split. cbn [re_split_from]. rewrite Hf.
  destruct (re_split_from f 0 s) as [|p ps] eqn:E.
  - now apply re_split_from_nonempty in E.
  - now exists p, ps.
Qed.

Lemma startswith_append p s :
  startswith p s = true -> (p ++ drop (String.length p) s)%string = s.
Proof.
  unfold startswith. revert s. induction p as [|a p IH]; intros s Hp.
  - cbn. apply drop_0.
  - destruct s as [|c s]; [discriminate|]. cbn in Hp |- *.
    destruct (Ascii.ascii_dec a c) as [->|]; [|discriminate].
    change (String c (p ++ drop (String.length p) s)%string = String c s).
    f_equal. now apply IH.
Qed.

(** Joining the segments with the separator gives the payload back. *)
Lemma join_re_split_triple s :
  String.concat "===" (re_split ChoCoTune.triple_at s) = s.
Proof.
  unfold re_split. rewrite <- (drop_0 s) at 2. generalize 0 as k.
  induction s as [|c s IH]; intros k.
  - now destruct k.
  - cbn [re_split_from]. destruct k as [|k]; [|apply IH].
    unfold ChoCoTune.triple_at at 1.
    destruct (startswith "===" (String c s)) eqn:Hp.
    + pose proof (IH 2) as IH2. pose proof (re_split_from_nonempty ChoCoTune.triple_at 2 s) as Hne.
      destruct (re_split_from ChoCoTune.triple_at 2 s) as [|p ps]; [congruence|].
      change (String.concat "===" (EmptyString :: p :: ps))
        with ("===" ++ String.concat "===" (p :: ps))%string.
      rewrite IH2. apply startswith_append in Hp. exact Hp.
    + pose proof (IH 0) as IH0. pose proof (re_split_from_nonempty ChoCoTune.triple_at 0 s) as Hne.
      destruct (re_split_from ChoCoTune.triple_at 0 s) as [|p ps]; [congruence|].
      rewrite drop_0 in IH0. cbn [drop]. rewrite <- IH0.
      destruct ps; reflexivity.
Qed.

End PyStrFacts.

(** ** [ChoCoTune._get_measures] *)

Lemma split_measures_eq s :
  split_measures s =
  map PyStr.strip (List.filter nonblank (PyStr.re_split measure_marker_at s)).
Proof. reflexivity. Qed.

Lemma split_measures_nonempty s :
  Forall (fun m => m <> EmptyString) (split_measures s).
Proof.
  rewrite split_measures_eq. apply Forall_forall. intros m Hm.
  apply list_elem_of_In, in_map_iff in Hm as (p & <- & Hp).
  apply filter_In in Hp as [_ Hp]. unfold nonblank in Hp.
  now apply negb_true_iff, String.eqb_neq in Hp.
Qed.




(** ** [ChoCoTune.parse_ireal_url] *)

Section IReal.
Context `{PyRealParser}.

Lemma with_events_nil w : with_events [] w = w.
Proof. unfold with_events. rewrite app_nil_r. now destruct w. Qed.

Lemma with_events_cons e es w :
  with_events es (with_event e w) = with_events (e :: es) w.
Proof. unfold with_events, with_event. cbn. now rewrite <- app_assoc. Qed.

Lemma import_song_eq tunes song w :
  ChoCoTune.import_song tunes song w =
  if String.eqb song EmptyString then (Ok tunes, w)
  else match ChoCoTune.new song with
       | Ok tune => (Ok (tunes ++ [tune]), with_event (Parsed (title tune)) w)
       | Raise err => (Ok tunes, with_event (CouldNotImport song err) w)
       end.
Proof.
  unfold ChoCoTune.import_song. destruct (String.eqb song EmptyString); [reflexivity|].
  cbn [negb]. unfold try_except, mbind, M_bind, lift.
  now destruct (ChoCoTune.new song).
Qed.

(** The loop over the songs goes through all of them. *)
Lemma import_loop songs tunes w :
  for_each songs ChoCoTune.import_song tunes w =
  (Ok (tunes ++ imported songs), with_events (import_log songs) w).
Proof.
  revert tunes w. induction songs as [|song songs IH]; intros tunes w.
  - cbn. now rewrite app_nil_r, with_events_nil.
  - rewrite for_each_cons, import_song_eq. cbn [imported import_log].
    destruct (String.eqb song EmptyString); [apply IH|].
    destruct (ChoCoTune.new song) as [tune|err]; rewrite IH, with_events_cons.
    + now rewrite <- app_assoc.
    + reflexivity.
Qed.

Lemma imported_iff songs tune :
  tune ∈ imported songs <->
  exists song, song ∈ songs /\ song <> EmptyString /\ ChoCoTune.new song = Ok tune.
Proof.
  induction songs as [|song songs IH]; cbn [imported].
  - split; [intros Hin; inversion Hin|intros (s & Hin & _); inversion Hin].
  - destruct (String.eqb_spec song EmptyString) as [->|Hne].
    + rewrite IH. split; intros (s & Hin & Hs & Hn).
      * exists s. split; [now right|auto].
      * exists s. apply elem_of_cons in Hin as [->|Hin]; [congruence|auto].
    + destruct (ChoCoTune.new song) as [t|err] eqn:En.
      * rewrite elem_of_cons, IH. split.
        -- intros [->|(s & Hin & Hs & Hn)].
           ++ exists song. split; [now left|auto].
           ++ exists s. split; [now right|auto].
        -- intros (s & Hin & Hs & Hn). apply elem_of_cons in Hin as [->|Hin].
           ++ left. congruence.
           ++ right. now exists s.
      * rewrite IH. split; intros (s & Hin & Hs & Hn).
        -- exists s. split; [now right|auto].
        -- exists s. apply elem_of_cons in Hin as [->|Hin]; [congruence|auto].
Qed.

Lemma import_log_failed songs song err :
  song ∈ songs -> song <> EmptyString -> ChoCoTune.new song = Raise err ->
  CouldNotImport song err ∈ import_log songs.
Proof.
  intros Hin Hne Hn. induction songs as [|s songs IH]; [inversion Hin|].
  cbn [import_log]. apply elem_of_cons in Hin as [<-|Hin].
  - apply String.eqb_neq in Hne. rewrite Hne, Hn. now left.
  - specialize (IH Hin). destruct (String.eqb s EmptyString); [exact IH|].
    destruct (ChoCoTune.new s); now right.
Qed.

(** C5.  For a url that is accepted, with [payload] the first group of
    the match, the songs are the pieces of [payload] between the
    separators [===]; [parse_ireal_url] returns normally, with the tunes
    of the non-empty songs that the constructor accepts, in the order of
    the songs, and it has logged one message for every non-empty song: a
    warning with the song and the error for a song that the constructor
    rejects. *)
Theorem C5_malformed_segments_skipped url payload w :
  ChoCoTune.match_irealb (unquote url) = Some payload ->
  let songs := PyStr.re_split ChoCoTune.triple_at payload in
  String.concat "===" songs = payload
  /\ ChoCoTune.parse_ireal_url url w
     = (Ok (imported songs), with_events (import_log songs) w)
  /\ (forall tune, tune ∈ imported songs <->
        exists song, song ∈ songs /\ song <> EmptyString
                     /\ ChoCoTune.new song = Ok tune)
  /\ (forall song err, song ∈ songs -> song <> EmptyString ->
        ChoCoTune.new song = Raise err ->
        CouldNotImport song err ∈ import_log songs).
Proof.
  intros Hm songs. split; [apply PyStrFacts.join_re_split_triple|].
  split; [|split; [apply imported_iff|apply import_log_failed]].
  unfold ChoCoTune.parse_ireal_url. rewrite Hm. apply import_loop.
Qed.

(** C9.  When the decoded url does not start with [irealb://],
    [parse_ireal_url] raises [RuntimeError]; it returns no list and logs
    nothing. *)
Theorem C9_invalid_scheme_raises url w :
  PyStr.startswith "irealb://" (unquote url) = false ->
  ChoCoTune.parse_ireal_url url w
  = (Raise (RuntimeError "Provided string is not a valid iReal url!"), w).
Proof.
  intros Hp. unfold ChoCoTune.parse_ireal_url, ChoCoTune.match_irealb.
  now rewrite Hp.
Qed.

End IReal.

Lemma C5_malformed_segments_skipped_witness :
  ChoCoTune.parse_ireal_url (H := Fixture.tunes)
    "irealb://Blue Bossa===bad song===Solar" empty_world
  = (Ok ["Blue Bossa"; "Solar"],
     with_events [Parsed "Blue Bossa";
                  CouldNotImport "bad song" (ValueError "not a song");
                  Parsed "Solar"] empty_world).
Proof.
  refine (proj1 (proj2 (C5_malformed_segments_skipped (H := Fixture.tunes)
            "irealb://Blue Bossa===bad song===Solar"
            "Blue Bossa===bad song===Solar" empty_world _))).
  reflexivity.
Defined.

Lemma C9_invalid_scheme_raises_witness :
  ChoCoTune.parse_ireal_url (H := Fixture.tunes) "http://Solar" empty_world
  = (Raise (RuntimeError "Provided string is not a valid iReal url!"), empty_world).
Proof.
  apply (C9_invalid_scheme_raises (H := Fixture.tunes) "http://Solar" empty_world).
  reflexivity.
Defined.

(** ** The string functions on examples *)

Example replace_dash : PyStr.replace "-" ":" "G-min" = "G:min".
Proof. reflexivity. Qed.

Example replace_no_overlap : PyStr.replace "aa" "b" "aaa" = "ba".
Proof. reflexivity. Qed.

Example replace_empty_old : PyStr.replace EmptyString "-" "ab" = "-a-b-".
Proof. reflexivity. Qed.

Example strip_both_ends : PyStr.strip "  C7 G " = "C7 G".
Proof. reflexivity. Qed.

Example split_four_equals :
  PyStr.re_split ChoCoTune.triple_at "a====b" = ["a"; "=b"].
Proof. reflexivity. Qed.

Example split_markers :
  PyStr.re_split measure_marker_at "[C LZ G7 Z" = [EmptyString; "C "; " G7 "; EmptyString].
Proof. reflexivity. Qed.

Example split_measures_markers : split_measures "[C LZ G7 Z" = ["C"; "G7"].
Proof. reflexivity. Qed.

Example match_stops_at_quote :
  ChoCoTune.match_irealb (String.append "irealb://Solar" (String (ascii_of_nat 34) "rest"))
  = Some "Solar".
Proof. reflexivity. Qed.

Example match_needs_payload : ChoCoTune.match_irealb "irealb://" = None.
Proof. reflexivity. Qed.

(** ** More facts on Python's strings *)

Module PyStrMoreFacts.
Import PyStr PyStrMore.

Lemma startswith_nil s : startswith EmptyString s = true.
Proof. now destruct s. Qed.

Lemma startswith_cons a p c s :
  startswith (String a p) (String c s) = true <-> a = c /\ startswith p s = true.
Proof.
  unfold startswith. cbn. destruct (Ascii.ascii_dec a c) as [->|Hne].
  - tauto.
  - split; [discriminate|]. intros [E _]. contradiction.
Qed.

Lemma startswith_take p n s :
  startswith p (take n s) = true -> startswith p s = true.
Proof.
  revert n s. induction p as [|a p IH]; intros n s Hp.
  - apply startswith_nil.
  - destruct n as [|n]; destruct s as [|c s]; try discriminate Hp.
    cbn [take] in Hp. apply startswith_cons in Hp as [-> Hp].
    apply startswith_cons. split; [reflexivity|]. eapply IH, Hp.
Qed.

(** A prefix of a string has no occurrence that the string has not. *)
Lemma contains_take sub n s :
  contains sub s = false -> contains sub (take n s) = false.
Proof.
  revert n. induction s as [|c s IH]; intros n Hs.
  - now destruct n.
  - cbn [contains] in Hs. apply orb_false_iff in Hs as [Hp Hs].
    destruct n as [|n].
    + cbn [take contains]. rewrite orb_false_r.
      destruct sub; [discriminate Hp|reflexivity].
    + cbn [take contains]. apply orb_false_iff. split; [|now apply IH].
      destruct (startswith sub (String c (take n s))) eqn:E; [|reflexivity].
      apply (startswith_take sub (S n) (String c s)) in E. congruence.
Qed.

Lemma index_of_contains sub s :
  contains sub s = true -> exists i, index_of sub s = Some i.
Proof.
  induction s as [|c s IH]; cbn [contains index_of]; intros Hs.
  - rewrite orb_false_r in Hs. rewrite Hs. now exists 0.
  - destruct (startswith sub (String c s)); [now exists 0|].
    destruct (IH Hs) as [i ->]. now exists (S i).
Qed.

(** The text before the first occurrence has no occurrence. *)
Lemma index_of_take sub s i :
  sub <> EmptyString -> index_of sub s = Some i ->
  contains sub (take i s) = false.
Proof.
  intros Hne. revert i. induction s as [|c s IH]; intros i; cbn [index_of].
  - destruct sub; [congruence|]. discriminate.
  - destruct (startswith sub (String c s)) eqn:Hp.
    + intros [= <-]. cbn. rewrite orb_false_r. now destruct sub.
    + destruct (index_of sub s) as [j|]; [|discriminate].
      intros [= <-]. cbn [take contains]. rewrite (IH j eq_refl), orb_false_r.
      destruct (startswith sub (String c (take j s))) eqn:E; [|reflexivity].
      apply (startswith_take sub (S j) (String c s)) in E. congruence.
Qed.

Lemma span_forallb p s : forallb_str p (span p s) = true.
Proof.
  induction s as [|c s IH]; [reflexivity|]. cbn [span].
  destruct (p c) eqn:Hc; [|reflexivity]. cbn. now rewrite Hc.
Qed.

Lemma lstrip_forallb p s :
  forallb_str p s = true -> forallb_str p (lstrip s) = true.
Proof.
  induction s as [|c s IH]; [easy|]. intros Hs. cbn [lstrip].
  destruct (isspace c); [|exact Hs].
  cbn in Hs. apply andb_true_iff in Hs as [_ Hs]. now apply IH.
Qed.

Lemma rstrip_forallb p s :
  forallb_str p s = true -> forallb_str p (rstrip s) = true.
Proof.
  induction s as [|c s IH]; [easy|]. intros Hs.
  cbn in Hs. apply andb_true_iff in Hs as [Hc Hs]. specialize (IH Hs).
  cbn [rstrip]. destruct (rstrip s) as [|d r].
  - destruct (isspace c); [reflexivity|]. cbn. now rewrite Hc.
  - change (p c && forallb_str p (String d r) = true). now rewrite Hc, IH.
Qed.

Lemma strip_forallb p s :
  forallb_str p s = true -> forallb_str p (strip s) = true.
Proof. intros Hs. now apply rstrip_forallb, lstrip_forallb. Qed.

Lemma lstrip_head s :
  lstrip s = EmptyString
  \/ exists c t, lstrip s = String c t /\ isspace c = false.
Proof.
  induction s as [|c s IH]; [now left|]. cbn [lstrip].
  destruct (isspace c) eqn:Hc; [exact IH|]. right. now exists c, s.
Qed.

Lemma rstrip_cons c t :
  isspace c = false -> rstrip (String c t) = String c (rstrip t).
Proof. intros Hc. cbn [rstrip]. rewrite Hc. now destruct (rstrip t). Qed.

Lemma rstrip_step c s :
  rstrip (String c s) =
  match rstrip s with
  | EmptyString => if isspace c then EmptyString else String c EmptyString
  | r => String c r
  end.
Proof. reflexivity. Qed.

Lemma rstrip_idem s : rstrip (rstrip s) = rstrip s.
Proof.
  induction s as [|c s IH]; [reflexivity|]. rewrite rstrip_step.
  destruct (rstrip s) as [|d r] eqn:E.
  - destruct (isspace c) eqn:Hc; [reflexivity|]. cbn. now rewrite Hc.
  - now rewrite rstrip_step, IH.
Qed.

(** A stripped string is left as it is by [strip]. *)
Lemma strip_idem s : strip (strip s) = strip s.
Proof.
  unfold strip. destruct (lstrip_head s) as [E|(c & t & E & Hc)]; rewrite E.
  - reflexivity.
  - rewrite (rstrip_cons c t Hc). cbn [lstrip]. rewrite Hc.
    rewrite <- (rstrip_cons c t Hc). apply rstrip_idem.
Qed.

Lemma is_char_code c n : n < 256 -> is_char c n = true -> c = ascii_of_nat n.
Proof.
  intros Hn Hc. unfold is_char in Hc. apply Nat.eqb_eq in Hc.
  rewrite <- Hc. symmetry. apply ascii_nat_embedding.
Qed.

Lemma intersperse_nil s : intersperse_new EmptyString s = s.
Proof. induction s as [|c s IH]; [reflexivity|]. cbn. now rewrite IH. Qed.

(** After the replacement of a character by a string without it, the
    character is gone. *)
Lemma replace_char_forallb (n : nat) new s :
  n < 256 ->
  forallb_str (fun c => negb (is_char c n)) new = true ->
  forallb_str (fun c => negb (is_char c n))
    (replace (String (ascii_of_nat n) EmptyString) new s) = true.
Proof.
  intros Hn Hnew. unfold replace.
  assert (Happ : forall a b,
    forallb_str (fun c => negb (is_char c n)) a = true ->
    forallb_str (fun c => negb (is_char c n)) b = true ->
    forallb_str (fun c => negb (is_char c n)) (a ++ b)%string = true).
  { induction a as [|x a IHa]; intros b Ha Hb; [exact Hb|].
    cbn [forallb_str] in Ha. apply andb_true_iff in Ha as [Hx Ha].
    change (negb (is_char x n)
            && forallb_str (fun c => negb (is_char c n)) (a ++ b)%string = true).
    rewrite Hx. now apply IHa. }
  induction s as [|c s IH]; [reflexivity|].
  cbn [replace_from String.length Nat.sub].
  destruct (startswith (String (ascii_of_nat n) EmptyString) (String c s)) eqn:Hp.
  - now apply Happ.
  - cbn [forallb_str]. rewrite IH, andb_true_r.
    destruct (is_char c n) eqn:Hc; [|reflexivity].
    apply is_char_code in Hc; [|exact Hn]. subst c.
    exfalso. revert Hp. unfold startswith. cbn.
    destruct (Ascii.ascii_dec (ascii_of_nat n) (ascii_of_nat n)); [|contradiction].
    now destruct s.
Qed.

Lemma startswith_app p x : startswith p (p ++ x)%string = true.
Proof.
  induction p as [|a p IH]; [apply startswith_nil|].
  change (startswith (String a p) (String a (p ++ x)%string) = true).
  apply startswith_cons. now split.
Qed.

Lemma drop_app p x : drop (String.length p) (p ++ x)%string = x.
Proof. induction p as [|a p IH]; [apply PyStrFacts.drop_0|exact IH]. Qed.

End PyStrMoreFacts.

(** ** [extract_romantext_annotator] *)

Module AnnotatorFacts.
Import PyStr PyStrMore PyStrMoreFacts Annotator.

Lemma search_analyst_None analysis :
  contains "Analyst:" analysis = false -> search_analyst analysis = None.
Proof.
  induction analysis as [|c s IH]; [reflexivity|]. intros Hc.
  cbn [contains] in Hc. apply orb_false_iff in Hc as [Hp Hs].
  cbn [search_analyst]. rewrite Hp. now apply IH.
Qed.

Lemma search_analyst_line analysis group1 :
  search_analyst analysis = Some group1 ->
  forallb_str (fun c => negb (is_char c 10)) group1 = true.
Proof.
  induction analysis as [|c s IH]; [discriminate|]. cbn [search_analyst].
  destruct (startswith "Analyst:" (String c s)); [|exact IH].
  destruct (span (fun c0 => negb (is_char c0 10)) (drop 8 (String c s)))
    as [|d g] eqn:E; [exact IH|].
  intros [= <-]. rewrite <- E. apply span_forallb.
Qed.

Lemma cut_ignored_prefix s ignore_str :
  exists n, cut_ignored s ignore_str = take n s.
Proof.
  unfold cut_ignored. destruct (contains ignore_str s) eqn:Hc.
  - destruct (index_of_contains _ _ Hc) as [i Hi]. unfold find, slice_to.
    rewrite Hi. exists i.
    destruct (Z.leb_spec 0 (Z.of_nat i)); [|lia]. now rewrite Nat2Z.id.
  - exists (String.length s). clear Hc.
    induction s as [|c s IH]; [reflexivity|]. cbn. now rewrite <- IH.
Qed.

Lemma cut_ignored_gone s ignore_str :
  ignore_str <> EmptyString -> contains ignore_str (cut_ignored s ignore_str) = false.
Proof.
  intros Hne. unfold cut_ignored. destruct (contains ignore_str s) eqn:Hc; [|exact Hc].
  destruct (index_of_contains _ _ Hc) as [i Hi]. unfold find, slice_to. rewrite Hi.
  destruct (Z.leb_spec 0 (Z.of_nat i)); [|lia]. rewrite Nat2Z.id.
  now apply index_of_take.
Qed.

Lemma cut_all_keeps_absent ignore s sub :
  contains sub s = false -> contains sub (fold_left cut_ignored ignore s) = false.
Proof.
  revert s. induction ignore as [|x ignore IH]; intros s Hs; [exact Hs|].
  cbn [fold_left]. apply IH. destruct (cut_ignored_prefix s x) as [n ->].
  now apply contains_take.
Qed.

Lemma cut_all_gone ignore s ignore_str :
  ignore_str ∈ ignore -> ignore_str <> EmptyString ->
  contains ignore_str (fold_left cut_ignored ignore s) = false.
Proof.
  intros Hin Hne. revert s. induction ignore as [|x ignore IH]; intros s.
  - inversion Hin.
  - cbn [fold_left]. apply elem_of_cons in Hin as [->|Hin].
    + apply cut_all_keeps_absent. now apply cut_ignored_gone.
    + now apply IH.
Qed.

Lemma strip_tools_tool tools s tool :
  let r := fold_left strip_tool tools (s, tool) in
  snd r = tool \/ snd r ∈ map snd tools.
Proof.
  revert s tool. induction tools as [|[desc name] tools IH]; intros s tool; cbn zeta.
  - now left.
  - cbn [fold_left strip_tool map snd].
    destruct (contains desc s).
    + destruct (IH (replace desc EmptyString s) name) as [-> | Hin].
      * right. now left.
      * right. now right.
    + destruct (IH s tool) as [-> | Hin]; [now left|]. right. now right.
Qed.

Lemma span_split p s :
  exists after, s = (span p s ++ after)%string
                /\ match after with
                   | EmptyString => True
                   | String c _ => p c = false
                   end.
Proof.
  induction s as [|c s (after & E & Ha)]; [now exists EmptyString|].
  cbn [span]. destruct (p c) eqn:Hc.
  - exists after. split; [|exact Ha].
    change (String c (span p s) ++ after)%string with (String c (span p s ++ after)%string).
    now rewrite <- E.
  - exists (String c s). now split.
Qed.

Lemma span_line_end s :
  exists after, s = (span (fun c => negb (is_char c 10)) s ++ after)%string
                /\ at_line_end after = true.
Proof.
  destruct (span_split (fun c => negb (is_char c 10)) s) as (after & E & Ha).
  exists after. split; [exact E|]. destruct after as [|c after]; [reflexivity|].
  cbn. now apply negb_false_iff in Ha.
Qed.

Lemma search_analyst_Some analysis line :
  search_analyst analysis = Some line -> first_analyst_line analysis line.
Proof.
  revert line. induction analysis as [|c rest IH]; intros line; [discriminate|].
  cbn [search_analyst].
  destruct (startswith "Analyst:" (String c rest)) eqn:Hp.
  - pose proof (PyStrFacts.startswith_append _ _ Hp) as Happ.
    change (String.length "Analyst:") with 8 in Happ.
    destruct (span_line_end (drop 8 (String c rest))) as (after & E & Ha).
    destruct (span (fun c0 => negb (is_char c0 10)) (drop 8 (String c rest)))
      as [|d g] eqn:Es.
    + intros Hs. destruct (IH line Hs) as (before & after0 & E0 & Hne & Hl & Ha0 & Hfirst).
      exists (String c before), after0.
      split; [change (String c before ++ ?x)%string with (String c (before ++ x)%string);
              now rewrite <- E0|].
      split; [exact Hne|]. split; [exact Hl|]. split; [exact Ha0|].
      intros before' after' E' Hlen. destruct before' as [|c' before'].
      * change (EmptyString ++ ?x)%string with x in E'.
        rewrite E' in E. change 8 with (String.length "Analyst:") in E.
        rewrite drop_app in E. change (EmptyString ++ after)%string with after in E.
        now rewrite E.
      * change (String c' before' ++ ?x)%string
          with (String c' (before' ++ x)%string) in E'.
        injection E' as _ E'. apply (Hfirst before' after' E'). cbn in Hlen. lia.
    + intros [= <-]. exists EmptyString, after.
      split; [change (EmptyString ++ ?x)%string with x; now rewrite <- E|].
      split; [discriminate|]. split; [rewrite <- Es; apply span_forallb|].
      split; [exact Ha|]. intros before' after' _ Hlen. cbn in Hlen. lia.
  - intros Hs. destruct (IH line Hs) as (before & after0 & E0 & Hne & Hl & Ha0 & Hfirst).
    exists (String c before), after0.
    split; [change (String c before ++ ?x)%string with (String c (before ++ x)%string);
            now rewrite <- E0|].
    split; [exact Hne|]. split; [exact Hl|]. split; [exact Ha0|].
    intros before' after' E' Hlen. destruct before' as [|c' before'].
    + change (EmptyString ++ ?x)%string with x in E'.
      rewrite E', startswith_app in Hp. discriminate.
    + change (String c' before' ++ ?x)%string
        with (String c' (before' ++ x)%string) in E'.
      injection E' as _ E'. apply (Hfirst before' after' E'). cbn in Hlen. lia.
Qed.

Lemma search_analyst_None_all analysis :
  search_analyst analysis = None ->
  forall before after,
    analysis = (before ++ "Analyst:" ++ after)%string -> at_line_end after = true.
Proof.
  induction analysis as [|c rest IH]; intros Hs before after E.
  - destruct before; discriminate E.
  - cbn [search_analyst] in Hs.
    assert (Hrest : search_analyst rest = None).
    { destruct (startswith "Analyst:" (String c rest)); [|exact Hs].
      now destruct (span (fun c0 => negb (is_char c0 10)) (drop 8 (String c rest))). }
    destruct before as [|c' before].
    + change (EmptyString ++ ?x)%string with x in E.
      rewrite E, startswith_app in Hs.
      destruct (span_line_end (drop 8 ("Analyst:" ++ after)%string)) as (after0 & E0 & Ha).
      destruct (span (fun c0 => negb (is_char c0 10)) (drop 8 ("Analyst:" ++ after)%string));
        [|discriminate].
      change 8 with (String.length "Analyst:") in E0. rewrite drop_app in E0.
      change (EmptyString ++ after0)%string with after0 in E0. now rewrite E0.
    + change (String c' before ++ ?x)%string with (String c' (before ++ x)%string) in E.
      injection E as _ E. apply (IH Hrest before after E).
Qed.

Lemma append_assoc a b c : ((a ++ b) ++ c)%string = (a ++ (b ++ c))%string.
Proof.
  induction a as [|x a IH]; [reflexivity|].
  change (String x (((a ++ b) ++ c)%string) = String x (a ++ (b ++ c))%string).
  now rewrite IH.
Qed.

Lemma startswith_app_l p a b :
  startswith p a = true -> startswith p (a ++ b)%string = true.
Proof.
  intros Hp. apply PyStrFacts.startswith_append in Hp. rewrite <- Hp, append_assoc.
  apply startswith_app.
Qed.

Lemma take_drop n s : (take n s ++ drop n s)%string = s.
Proof.
  revert s. induction n as [|n IH]; intros [|c s]; try reflexivity.
  cbn [take drop].
  change (String c (take n s) ++ drop n s)%string
    with (String c (take n s ++ drop n s)%string).
  now rewrite IH.
Qed.

Lemma index_of_startswith sub s i :
  index_of sub s = Some i -> startswith sub (drop i s) = true.
Proof.
  revert i. induction s as [|c s IH]; intros i; cbn [index_of].
  - destruct (startswith sub EmptyString) eqn:Hp; [|discriminate].
    intros [= <-]. exact Hp.
  - destruct (startswith sub (String c s)) eqn:Hp.
    + intros [= <-]. exact Hp.
    + destruct (index_of sub s) as [j|]; [|discriminate].
      intros [= <-]. now apply IH.
Qed.

(** What [cut_ignored] drops starts with the string to ignore. *)
Lemma cut_ignored_rest s ignore_str :
  exists rest,
    s = (cut_ignored s ignore_str ++ rest)%string
    /\ (rest = EmptyString \/ startswith ignore_str rest = true).
Proof.
  unfold cut_ignored. destruct (contains ignore_str s) eqn:Hc.
  - destruct (index_of_contains _ _ Hc) as [i Hi]. unfold find, slice_to.
    rewrite Hi. destruct (Z.leb_spec 0 (Z.of_nat i)); [|lia]. rewrite Nat2Z.id.
    exists (drop i s). split; [now rewrite take_drop|].
    right. now apply index_of_startswith.
  - exists EmptyString. split; [|now left].
    clear. induction s as [|c s IH]; [reflexivity|].
    change (String c s ++ EmptyString)%string with (String c (s ++ EmptyString)%string).
    now rewrite <- IH.
Qed.

Lemma cut_all_rest ignore s :
  exists rest,
    s = (fold_left cut_ignored ignore s ++ rest)%string
    /\ (rest = EmptyString
        \/ exists ignore_str, ignore_str ∈ ignore /\ startswith ignore_str rest = true).
Proof.
  revert s. induction ignore as [|x ignore IH]; intros s.
  - exists EmptyString. split; [|now left]. cbn [fold_left].
    clear. induction s as [|c s IH]; [reflexivity|].
    change (String c s ++ EmptyString)%string with (String c (s ++ EmptyString)%string).
    now rewrite <- IH.
  - cbn [fold_left].
    destruct (cut_ignored_rest s x) as (rest0 & E0 & H0).
    destruct (IH (cut_ignored s x)) as (rest1 & E1 & H1).
    exists (rest1 ++ rest0)%string. split.
    + rewrite <- append_assoc, <- E1. exact E0.
    + destruct H1 as [->|(i & Hi & Hp)].
      * change (EmptyString ++ rest0)%string with rest0.
        destruct H0 as [->|Hp]; [now left|]. right. exists x. split; [now left|exact Hp].
      * right. exists i. split; [now right|]. now apply startswith_app_l.
Qed.

Section WithFiles.
Context `{TextFiles}.

(** X1.  For a text without [Analyst:], the annotator is [None] and the
    tool is the empty string, whatever the other arguments are. *)
Theorem annotator_absent path analysis clean_str tools ignore :
  read_text path = Ok analysis ->
  contains "Analyst:" analysis = false ->
  extract_romantext_annotator path clean_str tools ignore = Ok (None, EmptyString).
Proof.
  intros Hr Hc. unfold extract_romantext_annotator, mbind, result_bind.
  rewrite Hr, (search_analyst_None _ Hc). reflexivity.
Qed.

(** X2.  Without cleaning, the tool is the empty string, and the
    annotator is the stripped text that follows, up to the end of its
    line, the first [Analyst:] of the file that has something after it on
    its line; it is [None] when every [Analyst:] of the file is at the end
    of its line.  The annotator has no line feed and [strip] leaves it as
    it is. *)
Theorem annotator_raw path analysis tools ignore :
  read_text path = Ok analysis ->
  exists annotator,
    extract_romantext_annotator path false tools ignore = Ok (annotator, EmptyString)
    /\ match annotator with
       | Some name =>
           (exists line, first_analyst_line analysis line /\ name = strip line)
           /\ strip name = name
           /\ forallb_str (fun c => negb (is_char c 10)) name = true
       | None =>
           forall before after,
             analysis = (before ++ "Analyst:" ++ after)%string ->
             at_line_end after = true
       end.
Proof.
  intros Hr. unfold extract_romantext_annotator, mbind, result_bind. rewrite Hr.
  destruct (search_analyst analysis) as [g|] eqn:Hs.
  - cbn [negb]. exists (Some (strip g)). split; [reflexivity|]. split; [|split].
    + exists g. split; [now apply search_analyst_Some|reflexivity].
    + apply strip_idem.
    + apply strip_forallb. eapply search_analyst_line, Hs.
  - exists None. split; [reflexivity|]. cbn beta iota. now apply search_analyst_None_all.
Qed.

(** X3.  With cleaning, the annotator comes from the stripped text of
    the first [Analyst:] line, once the tool descriptions are out: that
    text is cut where one of the strings to ignore starts, or not at all,
    what is kept contains none of the non-empty strings to ignore, and
    [ and ] becomes a comma and a space in it. *)
Theorem annotator_ignored path analysis tools ignore name tool :
  read_text path = Ok analysis ->
  extract_romantext_annotator path true tools ignore = Ok (Some name, tool) ->
  exists line text rest,
    first_analyst_line analysis line
    /\ fst (fold_left strip_tool tools (strip line, EmptyString)) = (text ++ rest)%string
    /\ name = replace " and " ", " text
    /\ (forall ignore_str, ignore_str ∈ ignore -> ignore_str <> EmptyString ->
          contains ignore_str text = false)
    /\ (rest = EmptyString
        \/ exists ignore_str, ignore_str ∈ ignore /\ startswith ignore_str rest = true).
Proof.
  intros Hr. unfold extract_romantext_annotator, mbind, result_bind. rewrite Hr.
  destruct (search_analyst analysis) as [g|] eqn:Hs; [|discriminate].
  cbn [negb].
  destruct (fold_left strip_tool tools (strip g, EmptyString)) as [s t] eqn:Et.
  intros [= <- <-].
  destruct (cut_all_rest ignore s) as (rest & E & Hrest).
  exists g, (fold_left cut_ignored ignore s), rest.
  split; [now apply search_analyst_Some|]. split; [rewrite Et; exact E|].
  split; [reflexivity|]. split; [|exact Hrest].
  intros ignore_str Hin Hne. now apply cut_all_gone.
Qed.

(** X4.  The tool that is returned is the empty string or one of the
    names of the tool map. *)
Theorem annotator_tool_known path clean_str tools ignore annotator tool :
  extract_romantext_annotator path clean_str tools ignore = Ok (annotator, tool) ->
  tool = EmptyString \/ tool ∈ map snd tools.
Proof.
  unfold extract_romantext_annotator, mbind, result_bind.
  destruct (read_text path) as [analysis|e]; [|discriminate].
  destruct (search_analyst analysis) as [g|]; [|intros [= <- <-]; now left].
  destruct clean_str; cbn [negb]; [|intros [= <- <-]; now left].
  pose proof (strip_tools_tool tools (strip g) EmptyString) as Ht. cbn zeta in Ht.
  destruct (fold_left strip_tool tools (strip g, EmptyString)) as [s t].
  intros [= <- <-]. exact Ht.
Qed.

End WithFiles.

Lemma annotator_absent_witness :
  extract_romantext_annotator (H := Sample.files) "bare.txt" true
    [("using ToolX", "toolx")] ["(checked"] = Ok (None, EmptyString).
Proof.
  apply (annotator_absent (H := Sample.files) "bare.txt" "m1 I"); reflexivity.
Defined.

Lemma annotator_raw_witness :
  exists annotator,
    extract_romantext_annotator (H := Sample.files) "analysis.txt" false
      [("using ToolX", "toolx")] ["(checked"] = Ok (annotator, EmptyString).
Proof.
  destruct (annotator_raw (H := Sample.files) "analysis.txt" Sample.analysis_text
              [("using ToolX", "toolx")] ["(checked"] eq_refl) as (annotator & E & _).
  now exists annotator.
Defined.

Lemma annotator_ignored_witness :
  exists line text rest,
    first_analyst_line Sample.analysis_text line
    /\ fst (fold_left strip_tool [("using ToolX", "toolx")] (strip line, EmptyString))
       = (text ++ rest)%string
    /\ "Jane Doe, John Roe,  " = replace " and " ", " text.
Proof.
  destruct (annotator_ignored (H := Sample.files) "analysis.txt" Sample.analysis_text
              [("using ToolX", "toolx")] ["(checked"] "Jane Doe, John Roe,  " "toolx")
    as (line & text & rest & Hl & Ht & Hn & _).
  - reflexivity.
  - vm_compute. reflexivity.
  - now exists line, text, rest.
Defined.

Lemma annotator_tool_known_witness :
  "toolx" = EmptyString \/ "toolx" ∈ map snd [("using ToolX", "toolx")].
Proof.
  apply (annotator_tool_known (H := Sample.files) "analysis.txt" true
           [("using ToolX", "toolx")] ["(checked"]
           (Some "Jane Doe, John Roe,  ") "toolx").
  vm_compute. reflexivity.
Defined.

End AnnotatorFacts.

(** ** [process_romantext] *)

Module RomanTextFacts.
Import RomanText.

Section WithLib.
Context `{RomanTextLib} `{TextFiles}.

Lemma update_last_snoc {A} (f : A -> A) l x :
  update_last f (l ++ [x]) = l ++ [f x].
Proof.
  induction l as [|y l IH]; [reflexivity|].
  cbn [app update_last]. rewrite IH. now destruct l.
Qed.

(** The loop over the numerals, once a run is open. *)
Lemma numerals_loop numerals chord_ann keys cur :
  fold_left add_numeral numerals (chord_ann, keys ++ [cur]) =
  (chord_ann ++ map chord_row numerals, keys ++ key_runs cur numerals).
Proof.
  revert chord_ann keys cur.
  induction numerals as [|rn rest IH]; intros chord_ann keys cur.
  - cbn. now rewrite app_nil_r.
  - cbn [fold_left add_numeral key_runs map]. rewrite last_snoc.
    destruct (String.eqb (row_label cur) (local_key rn)).
    + rewrite update_last_snoc, IH, <- app_assoc. reflexivity.
    + fold (chord_row rn) (key_row rn). rewrite IH, <- !app_assoc. reflexivity.
Qed.

Lemma numerals_loop_start numerals :
  fold_left add_numeral numerals ([], []) =
  (map chord_row numerals,
   match numerals with
   | [] => []
   | rn :: rest => key_runs (key_row rn) rest
   end).
Proof.
  destruct numerals as [|rn rest]; [reflexivity|].
  change (fold_left add_numeral (rn :: rest) ([], []))
    with (fold_left add_numeral rest ([chord_row rn], [] ++ [key_row rn])).
  now rewrite numerals_loop.
Qed.

Lemma key_runs_head cur numerals :
  exists r rows, key_runs cur numerals = r :: rows /\ row_label r = row_label cur.
Proof.
  revert cur. induction numerals as [|rn rest IH]; intros cur.
  - now exists cur, [].
  - cbn [key_runs]. destruct (String.eqb (row_label cur) (local_key rn)).
    + destruct (IH (add_duration (rn_quarterLength rn) cur)) as (r & rows & -> & Hr).
      now exists r, rows.
    + now eexists _, _.
Qed.

Lemma key_runs_distinct cur numerals :
  adjacent_distinct (map row_label (key_runs cur numerals)).
Proof.
  revert cur. induction numerals as [|rn rest IH]; intros cur; [exact I|].
  cbn [key_runs]. destruct (String.eqb_spec (row_label cur) (local_key rn)) as [E|Hne].
  - apply IH.
  - specialize (IH (key_row rn)).
    destruct (key_runs_head (key_row rn) rest) as (r & rows & Hk & Hr).
    rewrite Hk in IH |- *. cbn [map adjacent_distinct]. split; [|exact IH].
    rewrite Hr. exact Hne.
Qed.

Lemma process_romantext_path path clean_str tools ignore metadata chord_ann key_ann :
  process_romantext (AsPath path) clean_str tools ignore
    = Ok (metadata, chord_ann, key_ann) ->
  exists score,
    parse_romantext path = Ok score
    /\ (chord_ann, key_ann) = fold_left add_numeral (rt_numerals score) ([], []).
Proof.
  unfold process_romantext, mbind, result_bind.
  destruct (parse_romantext path) as [score|e]; [|discriminate].
  destruct (Annotator.extract_romantext_annotator path clean_str tools ignore)
    as [[annotator ann_tools]|e]; [|discriminate].
  destruct (first_item (rt_metadata score)) as [meta|e]; [|discriminate].
  destruct (fold_left add_numeral (rt_numerals score) ([], [])) as [c k] eqn:E.
  unfold mret, result_ret. intros [= _ <- <-]. now exists score.
Qed.

(** X5.  The chord rows are those of the numerals of the score, one for
    one and in order: measure, beat and length of the numeral, and the
    local key, a colon and the figure; the local key has no [-]. *)
Theorem romantext_chord_rows path clean_str tools ignore metadata chord_ann key_ann :
  process_romantext (AsPath path) clean_str tools ignore
    = Ok (metadata, chord_ann, key_ann) ->
  exists score,
    parse_romantext path = Ok score
    /\ chord_ann = map chord_row (rt_numerals score)
    /\ forall rn, PyStr.forallb_str (fun c => negb (is_char c 45)) (local_key rn) = true.
Proof.
  intros E. apply process_romantext_path in E as (score & Hs & E).
  rewrite numerals_loop_start in E. injection E as -> _.
  exists score. split; [exact Hs|]. split; [reflexivity|].
  intros rn. apply (PyStrMoreFacts.replace_char_forallb 45 "b"); [lia|reflexivity].
Qed.

(** X6.  No two consecutive key rows have the same key. *)
Theorem romantext_key_rows_distinct path clean_str tools ignore metadata chord_ann key_ann :
  process_romantext (AsPath path) clean_str tools ignore
    = Ok (metadata, chord_ann, key_ann) ->
  adjacent_distinct (map row_label key_ann).
Proof.
  intros E. apply process_romantext_path in E as (score & Hs & E).
  rewrite numerals_loop_start in E. injection E as _ ->.
  destruct (rt_numerals score) as [|rn rest]; [exact I|]. apply key_runs_distinct.
Qed.

Lemma key_runs_runs numerals first others :
  one_key (first, others) ->
  exists runs,
    key_runs (run_row (first, others)) numerals = map run_row runs
    /\ first :: others ++ numerals = flat_map run_numerals runs
    /\ Forall one_key runs.
Proof.
  revert first others. induction numerals as [|rn rest IH]; intros first others Hk.
  - exists [(first, others)]. split; [reflexivity|]. split.
    + cbn. now rewrite !app_nil_r.
    + now constructor.
  - cbn [key_runs]. change (row_label (run_row (first, others))) with (local_key first).
    destruct (String.eqb_spec (local_key first) (local_key rn)) as [E|Hne].
    + destruct (IH first (others ++ [rn])) as (runs & Hr & Hn & Hf).
      { unfold one_key in *. cbn [fst snd] in *. apply Forall_app. split; [exact Hk|].
        now repeat constructor. }
      exists runs. split; [|split; [|exact Hf]].
      * rewrite <- Hr. f_equal. unfold add_duration, run_row. cbn [fst snd row_measure row_offset row_duration row_label].
        now rewrite map_app, fold_left_app.
      * rewrite <- Hn. now rewrite <- app_assoc.
    + destruct (IH rn []) as (runs & Hr & Hn & Hf); [constructor|].
      exists ((first, others) :: runs). split; [|split].
      * cbn [map]. f_equal. exact Hr.
      * cbn [flat_map run_numerals fst snd]. rewrite <- Hn. reflexivity.
      * now constructor.
Qed.

(** X7.  The numerals of the score fall, in order, into runs of
    consecutive numerals in one local key, and [key_ann] has one row for
    each run: the measure, the beat and the key of the first numeral of
    the run, with the lengths of the numerals of the run added up from
    left to right as duration. *)
Theorem romantext_key_durations path clean_str tools ignore metadata chord_ann key_ann :
  process_romantext (AsPath path) clean_str tools ignore
    = Ok (metadata, chord_ann, key_ann) ->
  exists score runs,
    parse_romantext path = Ok score
    /\ rt_numerals score = flat_map run_numerals runs
    /\ Forall one_key runs
    /\ key_ann = map run_row runs.
Proof.
  intros E. apply process_romantext_path in E as (score & Hs & E).
  rewrite numerals_loop_start in E. injection E as _ ->.
  exists score. destruct (rt_numerals score) as [|rn rest].
  - exists []. now repeat split.
  - destruct (key_runs_runs rest rn []) as (runs & Hr & Hn & Hf); [constructor|].
    exists runs. split; [exact Hs|]. split; [exact Hn|]. split; [exact Hf|exact Hr].
Qed.

End WithLib.

Lemma romantext_chord_rows_witness :
  exists metadata chord_ann key_ann score,
    process_romantext (H := Sample.romantext) (H0 := Sample.files)
      (AsPath "analysis.txt") false [] [] = Ok (metadata, chord_ann, key_ann)
    /\ parse_romantext "analysis.txt" = Ok score
    /\ chord_ann = map chord_row (rt_numerals score).
Proof.
  eexists _, _, _.
  assert (E : process_romantext (H := Sample.romantext) (H0 := Sample.files)
                (AsPath "analysis.txt") false [] [] = Ok (_, _, _))
    by (vm_compute; reflexivity).
  destruct (romantext_chord_rows _ _ _ _ _ _ _ E) as (score & Hs & Hc & _).
  exists score. split; [exact E|]. split; [exact Hs|exact Hc].
Defined.

Lemma romantext_key_rows_distinct_witness :
  exists metadata chord_ann key_ann,
    process_romantext (H := Sample.romantext) (H0 := Sample.files)
      (AsPath "analysis.txt") false [] [] = Ok (metadata, chord_ann, key_ann)
    /\ map row_label key_ann = ["Bb major"; "g minor"; "Bb major"]
    /\ adjacent_distinct (map row_label key_ann).
Proof.
  eexists _, _, _.
  assert (E : process_romantext (H := Sample.romantext) (H0 := Sample.files)
                (AsPath "analysis.txt") false [] [] = Ok (_, _, _))
    by (vm_compute; reflexivity).
  split; [exact E|]. split; [reflexivity|].
  exact (romantext_key_rows_distinct _ _ _ _ _ _ _ E).
Defined.

Lemma romantext_key_durations_witness :
  exists metadata chord_ann key_ann runs,
    process_romantext (H := Sample.romantext) (H0 := Sample.files)
      (AsPath "analysis.txt") false [] [] = Ok (metadata, chord_ann, key_ann)
    /\ Sample.numerals = flat_map (run_numerals (H := Sample.romantext)) runs
    /\ key_ann = map run_row runs
    /\ map row_duration key_ann = [4%Z; 4%Z; 4%Z].
Proof.
  eexists _, _, _.
  assert (E : process_romantext (H := Sample.romantext) (H0 := Sample.files)
                (AsPath "analysis.txt") false [] [] = Ok (_, _, _))
    by (vm_compute; reflexivity).
  destruct (romantext_key_durations (H := Sample.romantext) (H0 := Sample.files)
              _ _ _ _ _ _ _ E) as (score & runs & Hs & Hn & _ & Hk).
  injection Hs as <-.
  exists runs. split; [exact E|]. split; [exact Hn|]. split; [exact Hk|reflexivity].
Defined.

End RomanTextFacts.

(** ** [parse_jams]: the file written, the log and the counters *)

Section ParseJamsMore.
Context `{Pipeline}.

Lemma chord_loop_world ty os st w r w' :
  for_each os (convert_chord_observation ty) st w = (r, w') ->
  saved w' = saved w /\ csv w' = csv w.
Proof.
  revert st w. induction os as [|o os IH]; intros [c l] w E.
  - rewrite for_each_nil in E. now injection E as <- <-.
  - rewrite for_each_cons, convert_chord_observation_eq in E.
    destruct (convert_value ty (value o)) as [v|e].
    + apply IH in E as [-> ->]. now split.
    + injection E as <- <-. now split.
Qed.

Lemma convert_annotation_world ty l a w r w' :
  convert_annotation ty l a w = (r, w') ->
  saved w' = saved w /\ csv w' = csv w.
Proof.
  unfold convert_annotation.
  destruct (bool_decide (namespace a ∈ CHORD_NAMESPACES)).
  - unfold mbind, M_bind.
    destruct (for_each (data a) _ _ w) as [[[c1 l1]|e] w1] eqn:E;
      apply chord_loop_world in E; now intros [= <- <-].
  - destruct (String.eqb (namespace a) "key_mode").
    + unfold mbind, M_bind. rewrite key_loop_eq. now intros [= <- <-].
    + now intros [= <- <-].
Qed.

Lemma annotations_loop_world ty anns l w r w' :
  for_each anns (convert_annotation ty) l w = (r, w') ->
  saved w' = saved w /\ csv w' = csv w.
Proof.
  revert l w. induction anns as [|a anns IH]; intros l w E.
  - rewrite for_each_nil in E. now injection E as <- <-.
  - rewrite for_each_cons in E.
    destruct (convert_annotation ty l a w) as [[l1|e] w1] eqn:E1;
      apply convert_annotation_world in E1 as [E1 E2].
    + apply IH in E as [-> ->]. now split.
    + injection E as <- <-. now split.
Qed.

(** The conversion writes no file, whatever its outcome. *)
Lemma parse_jams_convert_world jams_path ty replace w r w' :
  parse_jams_convert jams_path ty replace w = (r, w') ->
  saved w' = saved w /\ csv w' = csv w.
Proof.
  unfold parse_jams_convert, mbind at 1, M_bind, lift.
  destruct (jams_load jams_path) as [j|e]; [|now intros [= <- <-]].
  unfold mbind, M_bind.
  match goal with
  | |- context [for_each ?xs ?b ?l0 w] =>
      destruct (for_each xs b l0 w) as [[l1|e1] w1] eqn:E
  end; apply annotations_loop_world in E; now intros [= <- <-].
Qed.

Lemma annotations_loop_log ty anns l w l' w' :
  for_each anns (convert_annotation ty) l w = (Ok l', w') ->
  w' = logged_chords (chord_observations anns) w.
Proof.
  revert l w. induction anns as [|a anns IH]; intros l w E.
  - rewrite for_each_nil in E. injection E as <- <-. now rewrite logged_chords_nil.
  - rewrite for_each_cons in E.
    destruct (convert_annotation ty l a w) as [[l1|e] w1] eqn:E1; [|discriminate].
    apply IH in E. subst w'. unfold chord_observations. cbn [flat_map].
    rewrite <- logged_chords_app. f_equal.
    revert E1. unfold convert_annotation.
    destruct (bool_decide (namespace a ∈ CHORD_NAMESPACES)).
    + unfold mbind, M_bind.
      destruct (for_each (data a) _ _ w) as [[[c1 l2]|e] w2] eqn:E2; [|discriminate].
      intros [= <- <-]. now apply chord_loop_Ok in E2 as (_ & _ & _ & _ & _ & _ & ->).
    + rewrite logged_chords_nil. destruct (String.eqb (namespace a) "key_mode").
      * unfold mbind, M_bind. rewrite key_loop_eq. now intros [= <- <-].
      * now intros [= <- <-].
Qed.

Lemma parse_jams_convert_log jams_path ty replace w l w' :
  parse_jams_convert jams_path ty replace w = (Ok l, w') ->
  w' = logged_chords (chord_observations (annotations (original_jams l))) w.
Proof.
  intros E. pose proof (parse_jams_convert_Ok _ _ _ _ _ _ E) as (j & Hj & <- & _).
  revert E. unfold parse_jams_convert, mbind at 1, M_bind, lift. rewrite Hj.
  unfold mbind, M_bind.
  match goal with
  | |- context [for_each ?xs ?b ?l0 w] =>
      destruct (for_each xs b l0 w) as [[l1|e1] w1] eqn:E; [|discriminate]
  end.
  intros [= _ <-]. now apply annotations_loop_log in E.
Qed.

Lemma file_pairs_no_chords ty anns :
  Forall (fun a => namespace a ∉ CHORD_NAMESPACES) anns ->
  file_pairs ty anns = [] /\ chord_observations anns = [].
Proof.
  induction 1 as [|a anns Ha _ [IH1 IH2]]; [now split|].
  unfold file_pairs, chord_observations in *. cbn [flat_map].
  rewrite bool_decide_eq_false_2 by exact Ha. now rewrite IH1, IH2.
Qed.

(** X9.  In the metadata that [parse_jams] returns for a file, the count
    of every pair is the number of times the file has the pair, and a pair
    that the file has not is not a key. *)
Theorem parse_jams_counts_exact jams_path output_path ty filename replace w md w' :
  parse_jams jams_path output_path ty filename replace w = (Ok (Some md), w') ->
  exists j,
    jams_load jams_path = Ok j
    /\ forall pair,
         md !! pair =
         if (occurrences pair (file_pairs ty (annotations j)) =? 0)%Z then None
         else Some (occurrences pair (file_pairs ty (annotations j))).
Proof.
  rewrite parse_jams_eq.
  destruct (parse_jams_convert jams_path ty replace w) as [[l|e] w1] eqn:E;
    [|discriminate].
  destruct (jams_save_error (jam l) (os_path_join output_path filename)) as [e|].
  - discriminate.
  - intros [= <- <-].
    pose proof (parse_jams_convert_Ok _ _ _ _ _ _ E) as (j & Hj & Ho & _).
    exists j. split; [exact Hj|]. intros pair. rewrite <- Ho.
    apply (parse_jams_convert_metadata _ _ _ _ _ _ pair E).
Qed.

(** X10.  When [parse_jams] returns metadata it has written one file, at
    [os.path.join(output_path, filename)]: a container with the file
    metadata and the sandbox of the input; and it has logged one message
    for each chord observation, in order, and nothing else. *)
Theorem parse_jams_saves_one_file jams_path output_path ty filename replace w md w' :
  parse_jams jams_path output_path ty filename replace w = (Ok (Some md), w') ->
  exists j out,
    jams_load jams_path = Ok j
    /\ saved w' = saved w ++ [(os_path_join output_path filename, out)]
    /\ file_metadata out = file_metadata j
    /\ sandbox out = sandbox j
    /\ csv w' = csv w
    /\ log w' = log w ++ map (fun o => ConvertingChord (value o))
                           (chord_observations (annotations j)).
Proof.
  rewrite parse_jams_eq.
  destruct (parse_jams_convert jams_path ty replace w) as [[l|e] w1] eqn:E;
    [|discriminate].
  destruct (jams_save_error (jam l) (os_path_join output_path filename)) as [e|].
  - discriminate.
  - intros [= <- <-].
    pose proof (parse_jams_convert_log _ _ _ _ _ _ E) as Hw.
    pose proof (parse_jams_convert_Ok _ _ _ _ _ _ E)
      as (j & Hj & Ho & Hf & Hs & _ & _ & Hsv & Hcsv).
    exists j, (jam l). rewrite Ho in Hw. subst w1. now repeat split.
Qed.

(** X11.  When [jams.load] or the conversion of a chord raises,
    [parse_jams] raises the same exception without coming to the output
    file: nothing has been written. *)
Theorem parse_jams_failure_writes_nothing
  jams_path output_path ty filename replace w e w1 :
  parse_jams_convert jams_path ty replace w = (Raise e, w1) ->
  parse_jams jams_path output_path ty filename replace w = (Raise e, w1)
  /\ saved w1 = saved w /\ csv w1 = csv w.
Proof.
  intros E. rewrite parse_jams_eq, E. split; [reflexivity|].
  exact (parse_jams_convert_world _ _ _ _ _ _ E).
Qed.

(** X12.  A file without chord annotations never reaches the converter:
    whatever the annotation type is, the conversion ends normally, with
    empty metadata and without a message. *)
Theorem parse_jams_without_chords jams_path ty replace w j :
  jams_load jams_path = Ok j ->
  Forall (fun a => namespace a ∉ CHORD_NAMESPACES) (annotations j) ->
  exists l,
    parse_jams_convert jams_path ty replace w = (Ok l, w)
    /\ chord_metadata l = ∅.
Proof.
  intros Hj Hno.
  destruct (parse_jams_convert_total jams_path ty replace w j Hj) as (l & w' & E).
  { intros a o Ha Hns _. rewrite Forall_forall in Hno. now destruct (Hno a Ha). }
  pose proof (parse_jams_convert_Ok _ _ _ _ _ _ E) as (j' & Hj' & Ho & _).
  assert (j' = j) as -> by congruence.
  destruct (file_pairs_no_chords ty _ Hno) as [Hp Hc].
  exists l. split.
  - rewrite E. f_equal. rewrite (parse_jams_convert_log _ _ _ _ _ _ E), Ho, Hc.
    apply logged_chords_nil.
  - apply map_eq. intros pair.
    rewrite (parse_jams_convert_metadata _ _ _ _ _ _ pair E), Ho, Hp.
    now rewrite lookup_empty.
Qed.

End ParseJamsMore.

Lemma parse_jams_counts_exact_witness :
  exists md w' j,
    parse_jams (H := Fixture.pipeline ["a.jams"] "none")
      "in/a.jams" "out/jams_converted" "leadsheet" "a.jams" false empty_world
    = (Ok (Some md), w')
    /\ jams_load (Pipeline := Fixture.pipeline ["a.jams"] "none") "in/a.jams" = Ok j
    /\ md !! ("C", "C:maj") = Some 2%Z.
Proof.
  eexists _, _.
  assert (E : parse_jams (H := Fixture.pipeline ["a.jams"] "none")
                "in/a.jams" "out/jams_converted" "leadsheet" "a.jams" false
                empty_world = (Ok (Some _), _)) by (vm_compute; reflexivity).
  destruct (parse_jams_counts_exact _ _ _ _ _ _ _ _ E) as (j & Hj & Hc).
  exists j. split; [exact E|]. split; [exact Hj|].
  rewrite (Hc ("C", "C:maj")). injection Hj as <-. reflexivity.
Defined.

Lemma parse_jams_saves_one_file_witness :
  exists md w' j out,
    parse_jams (H := Fixture.pipeline ["a.jams"] "none")
      "in/a.jams" "out/jams_converted" "leadsheet" "a.jams" false empty_world
    = (Ok (Some md), w')
    /\ jams_load (Pipeline := Fixture.pipeline ["a.jams"] "none") "in/a.jams" = Ok j
    /\ saved w' = [("out/jams_converted/a.jams", out)]
    /\ file_metadata out = file_metadata j.
Proof.
  eexists _, _.
  assert (E : parse_jams (H := Fixture.pipeline ["a.jams"] "none")
                "in/a.jams" "out/jams_converted" "leadsheet" "a.jams" false
                empty_world = (Ok (Some _), _)) by (vm_compute; reflexivity).
  destruct (parse_jams_saves_one_file _ _ _ _ _ _ _ _ E)
    as (j & out & Hj & Hs & Hf & _).
  exists j, out. split; [exact E|]. split; [exact Hj|]. split; [exact Hs|exact Hf].
Defined.

Lemma parse_jams_failure_writes_nothing_witness :
  exists e w1,
    parse_jams (H := Fixture.pipeline ["c.jams"] "none")
      "in/c.jams" "out/jams_converted" "leadsheet" "c.jams" false empty_world
    = (Raise e, w1)
    /\ saved w1 = [] /\ log w1 = [ConvertingChord "?"].
Proof.
  eexists _, _.
  assert (E : parse_jams_convert (H := Fixture.pipeline ["c.jams"] "none")
                "in/c.jams" "leadsheet" false empty_world = (Raise _, _))
    by (vm_compute; reflexivity).
  destruct (parse_jams_failure_writes_nothing (H := Fixture.pipeline ["c.jams"] "none")
              "in/c.jams" "out/jams_converted" "leadsheet" "c.jams" false
              empty_world _ _ E) as (Hp & Hs & _).
  split; [exact Hp|]. split; [exact Hs|reflexivity].
Defined.

Lemma parse_jams_without_chords_witness :
  exists l,
    parse_jams_convert (H := SampleJams.key_only)
      "in/k.jams" "no such type" true empty_world = (Ok l, empty_world)
    /\ chord_metadata l = ∅.
Proof.
  apply (parse_jams_without_chords (H := SampleJams.key_only)
           "in/k.jams" "no such type" true empty_world SampleJams.file_k).
  - reflexivity.
  - repeat constructor. intros Hin. apply list_elem_of_In in Hin.
    destruct Hin as [E|[E|[]]]; discriminate E.
Defined.

(** ** Key normalisation: what the replacements keep *)

Module ReplaceFacts.
Import PyStr PyStrMore PyStrMoreFacts.

Lemma forallb_str_app p a b :
  forallb_str p a = true -> forallb_str p b = true ->
  forallb_str p (a ++ b)%string = true.
Proof.
  induction a as [|x a IH]; intros Ha Hb; [exact Hb|].
  cbn [forallb_str] in Ha. apply andb_true_iff in Ha as [Hx Ha].
  change (p x && forallb_str p (a ++ b)%string = true).
  rewrite Hx. now apply IH.
Qed.

(** The characters of a replacement come from the string or from [new]. *)
Lemma replace_from_forallb p old new k s :
  forallb_str p s = true -> forallb_str p new = true ->
  forallb_str p (replace_from old new k s) = true.
Proof.
  intros Hs Hnew. revert k Hs. induction s as [|c s IH]; intros k Hs; [reflexivity|].
  cbn [forallb_str] in Hs. apply andb_true_iff in Hs as [Hc Hs].
  cbn [replace_from]. destruct k as [|k]; [|now apply IH].
  destruct (startswith old (String c s)).
  - apply forallb_str_app; [exact Hnew|now apply IH].
  - cbn [forallb_str]. rewrite Hc. now apply IH.
Qed.

Lemma replace_forallb p old new s :
  old <> EmptyString ->
  forallb_str p s = true -> forallb_str p new = true ->
  forallb_str p (replace old new s) = true.
Proof.
  intros Hne Hs Hnew. destruct old as [|a old]; [congruence|].
  now apply replace_from_forallb.
Qed.

(** A string without occurrence of [old] is left as it is. *)
Lemma replace_absent old new s :
  old <> EmptyString -> contains old s = false -> replace old new s = s.
Proof.
  intros Hne. destruct old as [|a old]; [congruence|]. unfold replace.
  induction s as [|c s IH]; [reflexivity|]. intros Hc.
  cbn [contains] in Hc. apply orb_false_iff in Hc as [Hp Hs].
  cbn [replace_from]. rewrite Hp. f_equal. now apply IH.
Qed.

(** X13.  A normalised key has no [-], whatever the original value is. *)
Theorem convert_key_no_dash v :
  forallb_str (fun c => negb (is_char c 45)) (convert_key v) = true.
Proof.
  unfold convert_key.
  apply replace_forallb; [discriminate| |reflexivity].
  apply replace_forallb; [discriminate| |reflexivity].
  apply (replace_char_forallb 45 ":"); [lia|reflexivity].
Qed.

(** X14.  A value that contains none of [-], [maj] and [min] is its own
    normalisation. *)
Theorem convert_key_unchanged v :
  contains "-" v = false -> contains "maj" v = false -> contains "min" v = false ->
  convert_key v = v.
Proof.
  intros Hd Hmaj Hmin. unfold convert_key.
  rewrite (replace_absent "-" ":" v) by (discriminate || exact Hd).
  rewrite (replace_absent "maj" "major" v) by (discriminate || exact Hmaj).
  apply replace_absent; [discriminate|exact Hmin].
Qed.

Lemma convert_key_unchanged_witness : convert_key "D:dorian" = "D:dorian".
Proof. apply convert_key_unchanged; reflexivity. Defined.

End ReplaceFacts.

(** ** [parse_jams_dataset]: the table *)

Lemma insert_row_perm r rows : insert_row r rows ≡ₚ r :: rows.
Proof.
  induction rows as [|r' rows IH]; [reflexivity|]. cbn [insert_row].
  destruct (snd r <=? snd r')%Z; [reflexivity|].
  rewrite IH. apply perm_swap.
Qed.

Lemma sort_values_perm rows : sort_values rows ≡ₚ rows.
Proof.
  induction rows as [|r rows IH]; [reflexivity|].
  cbn [sort_values fold_right]. fold (sort_values rows).
  now rewrite insert_row_perm, IH.
Qed.

Lemma insert_row_ascending r rows :
  ascending rows -> ascending (insert_row r rows).
Proof.
  induction rows as [|r' rows IH]; intros Ha; [exact I|].
  cbn [insert_row]. destruct (Z.leb_spec (snd r) (snd r')) as [Hle|Hgt].
  - split; [exact Hle|exact Ha].
  - destruct rows as [|r'' rows].
    + cbn. split; [lia|exact I].
    + destruct Ha as [Hle' Ha]. specialize (IH Ha). cbn [insert_row] in IH |- *.
      destruct (snd r <=? snd r'')%Z eqn:E.
      * split; [lia|exact IH].
      * split; [exact Hle'|exact IH].
Qed.

Lemma sort_values_ascending rows : ascending (sort_values rows).
Proof.
  induction rows as [|r rows IH]; [exact I|].
  cbn [sort_values fold_right]. fold (sort_values rows).
  now apply insert_row_ascending.
Qed.

Lemma for_each_invariant {S A B} (P : B -> Prop) (body : B -> A -> M S B) xs :
  (forall acc x s acc' s', P acc -> body acc x s = (Ok acc', s') -> P acc') ->
  forall acc s r s', P acc -> for_each xs body acc s = (Ok r, s') -> P r.
Proof.
  intros Hbody. induction xs as [|x xs IH]; intros acc s r s' Hacc E.
  - rewrite for_each_nil in E. now injection E as <- <-.
  - rewrite for_each_cons in E.
    destruct (body acc x s) as [[acc'|e] s1] eqn:E1; [|discriminate].
    eapply IH; [|exact E]. eapply Hbody; eauto.
Qed.

Lemma for_each_state {S A B} (f : S -> list (string * list row))
  (body : B -> A -> M S B) xs :
  (forall acc x s r s', body acc x s = (r, s') -> f s' = f s) ->
  forall acc s r s', for_each xs body acc s = (r, s') -> f s' = f s.
Proof.
  intros Hbody. induction xs as [|x xs IH]; intros acc s r s' E.
  - rewrite for_each_nil in E. now injection E as <- <-.
  - rewrite for_each_cons in E.
    destruct (body acc x s) as [[acc'|e] s1] eqn:E1.
    + rewrite (IH _ _ _ _ E). eapply Hbody, E1.
    + injection E as <- <-. eapply Hbody, E1.
Qed.

Section Table.
Context `{Pipeline}.

Lemma file_pairs_sound ty anns pair :
  pair ∈ file_pairs ty anns -> convert_value ty (fst pair) = Ok (snd pair).
Proof.
  unfold file_pairs. intros Hin. apply list_elem_of_In, in_flat_map in Hin
    as (a & _ & Hin).
  destruct (bool_decide (namespace a ∈ CHORD_NAMESPACES)); [|inversion Hin].
  apply list_elem_of_In in Hin. unfold observed_pairs in Hin.
  apply list_elem_of_omap in Hin as (o & _ & Ho).
  destruct (convert_value ty (value o)) as [v|e] eqn:Ev; [|discriminate].
  injection Ho as <-. exact Ev.
Qed.

Lemma occurrences_in pair pairs :
  occurrences pair pairs <> 0%Z -> pair ∈ pairs /\ (0 < occurrences pair pairs)%Z.
Proof.
  unfold occurrences. intros Hne.
  destruct (List.filter (fun q => bool_decide (q = pair)) pairs) as [|q qs] eqn:E;
    [now cbn in Hne|].
  split; [|cbn; lia].
  assert (Hq : In q (List.filter (fun q => bool_decide (q = pair)) pairs))
    by (rewrite E; now left).
  apply filter_In in Hq as [Hq Hd]. apply bool_decide_eq_true in Hd. subst q.
  now apply list_elem_of_In.
Qed.

Lemma convert_file_sound jams_path dir ty replace metadata file w metadata' w' :
  sound_metadata ty metadata ->
  convert_file jams_path dir ty replace metadata file w = (Ok metadata', w') ->
  sound_metadata ty metadata'.
Proof.
  intros Hm. unfold convert_file.
  destruct (os_path_isfile (os_path_join jams_path file)); [|now intros [= <- <-]].
  unfold mbind, M_bind, emit, modify. rewrite parse_jams_eq.
  destruct (parse_jams_convert _ ty replace _) as [[l|e] w1] eqn:E; [|discriminate].
  destruct (jams_save_error (jam l) (os_path_join dir file)) as [e|].
  - destruct e; discriminate.
  - unfold lift, dict_update. intros [= <- <-]. intros o c n Hl.
    apply lookup_union_Some_raw in Hl as [Hl|[_ Hl]]; [|now apply Hm].
    rewrite (parse_jams_convert_metadata _ _ _ _ _ _ (o, c) E) in Hl. cbn zeta in Hl.
    destruct (Z.eqb_spec (occurrences (o, c)
                (file_pairs ty (annotations (original_jams l)))) 0) as [|Hne];
      [discriminate|].
    injection Hl as <-. apply occurrences_in in Hne as [Hin Hpos].
    split; [|exact Hpos]. now apply file_pairs_sound in Hin.
Qed.

Lemma convert_file_csv jams_path dir ty replace metadata file w r w' :
  convert_file jams_path dir ty replace metadata file w = (r, w') -> csv w' = csv w.
Proof.
  unfold convert_file.
  destruct (os_path_isfile (os_path_join jams_path file)); [|now intros [= <- <-]].
  unfold mbind, M_bind, emit, modify. rewrite parse_jams_eq.
  destruct (parse_jams_convert _ ty replace _) as [[l|e] w1] eqn:E;
    apply parse_jams_convert_world in E as [_ Hc].
  - destruct (jams_save_error (jam l) (os_path_join dir file)) as [e|].
    + destruct e; intros [= <- <-]; exact Hc.
    + unfold lift. intros [= <- <-]. exact Hc.
  - intros [= <- <-]. exact Hc.
Qed.

Lemma collect_metadata_Ok jams_path output_path ty replace w metadata w' :
  collect_metadata jams_path output_path ty replace w = (Ok metadata, w') ->
  sound_metadata ty metadata /\ csv w' = csv w.
Proof.
  unfold collect_metadata, mbind at 1, M_bind, lift.
  destruct (create_dir _) as [dir|e]; [|discriminate].
  unfold mbind, M_bind. destruct (os_listdir jams_path) as [files|e]; [|discriminate].
  intros E. split.
  - eapply (for_each_invariant (sound_metadata ty)); [| |exact E].
    + intros acc x s acc' s' Hacc Hb. eapply convert_file_sound; eauto.
    + intros o c n Hl. now rewrite lookup_empty in Hl.
  - eapply (for_each_state csv); [|exact E].
    intros acc x s r s' Hb. eapply convert_file_csv, Hb.
Qed.

Lemma parse_jams_dataset_Ok jams_path output_path ty replace w w' :
  parse_jams_dataset jams_path output_path ty replace w = (Ok tt, w') ->
  exists metadata,
    sound_metadata ty metadata
    /\ csv w' = csv w ++ [(os_path_join output_path "conversion_meta.csv",
                          sort_values (metadata_rows metadata))].
Proof.
  unfold parse_jams_dataset, mbind, M_bind.
  destruct (collect_metadata jams_path output_path ty replace w)
    as [[metadata|e] w1] eqn:E; [|discriminate].
  apply collect_metadata_Ok in E as [Hs Hc].
  unfold write_csv, modify. intros [= <-]. exists metadata. cbn [csv].
  now rewrite Hc.
Qed.

(** X15.  In the table that a run writes, every row holds a chord, the
    conversion that the converter gives for it, and a count of at least
    one. *)
Theorem dataset_rows_sound jams_path output_path ty replace w w' :
  parse_jams_dataset jams_path output_path ty replace w = (Ok tt, w') ->
  exists rows,
    csv w' = csv w ++ [(os_path_join output_path "conversion_meta.csv", rows)]
    /\ forall o c n, (o, c, n) ∈ rows -> convert_value ty o = Ok c /\ (0 < n)%Z.
Proof.
  intros E. apply parse_jams_dataset_Ok in E as (metadata & Hs & Hc).
  eexists. split; [exact Hc|]. intros o c n Hin.
  rewrite sort_values_perm in Hin. unfold metadata_rows in Hin.
  apply list_elem_of_In, in_map_iff in Hin as ([[o' c'] n'] & [= -> -> ->] & Hin).
  apply list_elem_of_In, elem_of_map_to_list in Hin. now apply Hs.
Qed.

(** X16.  The table that a run writes is in ascending order of
    occurrences and has one row for each pair: no pair of an original and
    a converted chord is in two rows. *)
Theorem dataset_table_sorted jams_path output_path ty replace w w' :
  parse_jams_dataset jams_path output_path ty replace w = (Ok tt, w') ->
  exists rows,
    csv w' = csv w ++ [(os_path_join output_path "conversion_meta.csv", rows)]
    /\ ascending rows
    /\ NoDup (map (fun r : row => (fst (fst r), snd (fst r))) rows).
Proof.
  intros E. apply parse_jams_dataset_Ok in E as (metadata & _ & Hc).
  eexists. split; [exact Hc|]. split; [apply sort_values_ascending|].
  rewrite sort_values_perm. apply metadata_rows_NoDup.
Qed.

(** X17.  For a directory without regular files the run writes a table
    without rows and does nothing else. *)
Theorem dataset_without_files jams_path output_path ty replace w dir files :
  create_dir (os_path_join output_path "jams_converted") = Ok dir ->
  os_listdir jams_path = Ok files ->
  (forall file, file ∈ files -> os_path_isfile (os_path_join jams_path file) = false) ->
  parse_jams_dataset jams_path output_path ty replace w =
  (Ok tt, {| log := log w; saved := saved w;
             csv := csv w ++ [(os_path_join output_path "conversion_meta.csv", [])] |}).
Proof.
  intros Hd Hl Hf. unfold parse_jams_dataset, collect_metadata.
  unfold mbind at 1 2, M_bind, lift. rewrite Hd. unfold mbind at 1, M_bind. rewrite Hl.
  assert (E : forall m,
             for_each files (convert_file jams_path dir ty replace) m w = (Ok m, w)).
  { clear Hl. induction files as [|file files IH]; intros m; [reflexivity|].
    rewrite for_each_cons. unfold convert_file at 1.
    rewrite (Hf file) by now left. unfold mret, M_ret.
    apply IH. intros f Hin. apply Hf. now right. }
  rewrite E. unfold write_csv, modify, metadata_rows.
  now rewrite map_to_list_empty.
Qed.

End Table.

Lemma dataset_rows_sound_witness :
  exists w' rows,
    parse_jams_dataset (H := Fixture.pipeline ["a.jams"; "b.jams"] "none")
      "in" "out" "leadsheet" false empty_world = (Ok tt, w')
    /\ csv w' = [("out/conversion_meta.csv", rows)]
    /\ forall o c n, (o, c, n) ∈ rows ->
         convert_value (H := Fixture.pipeline ["a.jams"; "b.jams"] "none")
           "leadsheet" o = Ok c /\ (0 < n)%Z.
Proof.
  eexists.
  assert (E : parse_jams_dataset (H := Fixture.pipeline ["a.jams"; "b.jams"] "none")
                "in" "out" "leadsheet" false empty_world = (Ok tt, _))
    by (vm_compute; reflexivity).
  destruct (dataset_rows_sound _ _ _ _ _ _ E) as (rows & Hc & Hr).
  exists rows. split; [exact E|]. split; [exact Hc|exact Hr].
Defined.

Lemma dataset_table_sorted_witness :
  exists w' rows,
    parse_jams_dataset (H := Fixture.pipeline ["a.jams"; "b.jams"] "none")
      "in" "out" "leadsheet" false empty_world = (Ok tt, w')
    /\ csv w' = [("out/conversion_meta.csv", rows)]
    /\ ascending rows.
Proof.
  eexists.
  assert (E : parse_jams_dataset (H := Fixture.pipeline ["a.jams"; "b.jams"] "none")
                "in" "out" "leadsheet" false empty_world = (Ok tt, _))
    by (vm_compute; reflexivity).
  destruct (dataset_table_sorted _ _ _ _ _ _ E) as (rows & Hc & Ha & _).
  exists rows. split; [exact E|]. split; [exact Hc|exact Ha].
Defined.

Lemma dataset_without_files_witness :
  parse_jams_dataset (H := SampleJams.no_files) "in" "out" "leadsheet" false empty_world
  = (Ok tt, {| log := []; saved := []; csv := [("out/conversion_meta.csv", [])] |}).
Proof.
  apply (dataset_without_files (H := SampleJams.no_files) "in" "out" "leadsheet"
           false empty_world "out/jams_converted" ["sub"]); reflexivity.
Defined.

(** ** [parsers.py]: the measures, the payload and the segments *)

Module SegmentFacts.
Import PyStr PyStrMore PyStrMoreFacts.

Lemma marker_at_0 c s :
  measure_marker_at (String c s) = 0 -> not_marker c = true.
Proof.
  unfold not_marker. cbn [measure_marker_at].
  destruct (is_char c 124); [discriminate|].
  destruct (is_char c 76 && _); [discriminate|].
  now destruct (is_single_marker c).
Qed.

Lemma pieces_no_marker k s :
  Forall (fun p => forallb_str not_marker p = true)
    (re_split_from measure_marker_at k s).
Proof.
  revert k. induction s as [|c s IH]; intros k.
  - now repeat constructor.
  - cbn [re_split_from]. destruct k as [|k]; [|apply IH].
    destruct (measure_marker_at (String c s)) as [|n] eqn:Hm.
    + apply marker_at_0 in Hm. specialize (IH 0).
      destruct (re_split_from measure_marker_at 0 s) as [|p ps].
      * repeat constructor. cbn. now rewrite Hm.
      * inversion IH as [|? ? Hp Hps]; subst. constructor; [|exact Hps].
        cbn [forallb_str]. now rewrite Hm, Hp.
    + constructor; [reflexivity|apply IH].
Qed.

(** X18.  Every measure that the split of [_get_measures] keeps is not
    empty, is stripped, and contains none of the marker characters. *)
Theorem measures_clean chord_string :
  Forall (fun m => m <> EmptyString /\ strip m = m
                   /\ forallb_str not_marker m = true)
    (split_measures chord_string).
Proof.
  rewrite split_measures_eq. apply Forall_forall. intros m Hm.
  apply list_elem_of_In, in_map_iff in Hm as (p & <- & Hp).
  apply filter_In in Hp as [Hin Hp].
  split; [|split].
  - unfold nonblank in Hp. now apply negb_true_iff, String.eqb_neq in Hp.
  - apply strip_idem.
  - apply strip_forallb.
    pose proof (pieces_no_marker 0 chord_string) as HF.
    rewrite Forall_forall in HF. apply HF. now apply list_elem_of_In.
Qed.

Lemma span_all q p : forallb_str q p = true -> span q p = p.
Proof.
  induction p as [|a p IH]; [reflexivity|]. cbn [forallb_str span].
  intros Hq. apply andb_true_iff in Hq as [Ha Hp]. rewrite Ha. f_equal. now apply IH.
Qed.

Lemma span_stop q p c rest :
  forallb_str q p = true -> q c = false -> span q (p ++ String c rest)%string = p.
Proof.
  induction p as [|a p IH]; intros Hq Hc.
  - change (span q (String c rest) = EmptyString). cbn [span]. now rewrite Hc.
  - cbn [forallb_str] in Hq. apply andb_true_iff in Hq as [Ha Hp].
    change (span q (String a (p ++ String c rest)%string) = String a p).
    cbn [span]. rewrite Ha. f_equal. now apply IH.
Qed.

Lemma match_irealb_cut p rest :
  forallb_str (fun c => negb (is_char c 34)) p = true ->
  ChoCoTune.match_irealb ("irealb://" ++ p ++ String (ascii_of_nat 34) rest)%string
  = ChoCoTune.match_irealb ("irealb://" ++ p)%string.
Proof.
  intros Hp. unfold ChoCoTune.match_irealb. rewrite !startswith_app.
  change 9 with (String.length "irealb://"). rewrite !drop_app.
  rewrite span_stop by (exact Hp || reflexivity). now rewrite span_all.
Qed.

(** The first separator of a string cuts it. *)
Lemma head_prefix s p ps :
  re_split ChoCoTune.triple_at s = p :: ps -> exists t, s = (p ++ t)%string.
Proof.
  intros E. pose proof (PyStrFacts.join_re_split_triple s) as Hj. rewrite E in Hj.
  destruct ps as [|q qs]; cbn [String.concat] in Hj.
  - exists EmptyString. rewrite <- Hj. clear.
    induction p as [|a p IH]; [reflexivity|].
    change (String a p = String a (p ++ EmptyString)%string). now f_equal.
  - eexists. symmetry. exact Hj.
Qed.

Lemma startswith_extend x a t :
  startswith x a = true -> startswith x (a ++ t)%string = true.
Proof.
  revert a. induction x as [|c x IH]; intros a Hx; [apply startswith_nil|].
  destruct a as [|d a]; [discriminate|].
  apply startswith_cons in Hx as [-> Hx].
  change (startswith (String d x) (String d (a ++ t)%string) = true).
  apply startswith_cons. split; [reflexivity|now apply IH].
Qed.

Lemma songs_no_separator_from k s :
  Forall (fun song => contains "===" song = false)
    (re_split_from ChoCoTune.triple_at k s).
Proof.
  revert k. induction s as [|c s IH]; intros k.
  - now repeat constructor.
  - cbn [re_split_from]. destruct k as [|k]; [|apply IH].
    destruct (ChoCoTune.triple_at (String c s)) as [|n] eqn:Hm.
    + pose proof (IH 0) as IH0.
      destruct (re_split_from ChoCoTune.triple_at 0 s) as [|p ps] eqn:E.
      * now apply PyStrFacts.re_split_from_nonempty in E.
      * inversion IH0 as [|? ? Hp Hps]; subst. constructor; [|exact Hps].
        cbn [contains]. rewrite Hp, orb_false_r.
        destruct (startswith "===" (String c p)) eqn:Hs; [|reflexivity].
        destruct (head_prefix s p ps E) as [t ->].
        apply (startswith_extend _ _ t) in Hs.
        change (String c p ++ t)%string with (String c (p ++ t)%string) in Hs.
        unfold ChoCoTune.triple_at in Hm. now rewrite Hs in Hm.
    + constructor; [reflexivity|apply IH].
Qed.

(** X19.  No song that [parse_ireal_url] takes from a payload contains
    the separator [===]. *)
Theorem songs_without_separator payload :
  Forall (fun song => contains "===" song = false)
    (re_split ChoCoTune.triple_at payload).
Proof. apply songs_no_separator_from. Qed.

Section WithTune.
Context `{PyRealParser}.

(** X20.  What follows the first double quote of the decoded url is
    ignored: the url and the url cut before the quote give the same
    result. *)
Theorem url_cut_at_quote url url' p rest w :
  unquote url = ("irealb://" ++ p ++ String (ascii_of_nat 34) rest)%string ->
  unquote url' = ("irealb://" ++ p)%string ->
  forallb_str (fun c => negb (is_char c 34)) p = true ->
  ChoCoTune.parse_ireal_url url w = ChoCoTune.parse_ireal_url url' w.
Proof.
  intros Hu Hu' Hp. unfold ChoCoTune.parse_ireal_url.
  now rewrite Hu, Hu', match_irealb_cut.
Qed.

Lemma import_counts songs :
  length (import_log songs) = length (nonempty_songs songs)
  /\ length (imported songs) + length (warnings (import_log songs))
     = length (nonempty_songs songs).
Proof.
  induction songs as [|song songs [IH1 IH2]]; [now split|].
  unfold nonempty_songs in *. cbn [import_log imported List.filter].
  destruct (String.eqb song EmptyString); cbn [negb]; [now split|].
  destruct (ChoCoTune.new song) as [tune|err]; cbn [length warnings List.filter level_of].
  - fold (warnings (import_log songs)). split; lia.
  - fold (warnings (import_log songs)). cbn [length]. split; lia.
Qed.

(** X21.  For an accepted url every non-empty song is accounted for: the
    call logs one message per non-empty song, and the number of tunes
    returned plus the number of warnings logged is the number of non-empty
    songs. *)
Theorem songs_accounted_for url payload w :
  ChoCoTune.match_irealb (unquote url) = Some payload ->
  exists tunes events,
    ChoCoTune.parse_ireal_url url w = (Ok tunes, with_events events w)
    /\ length events
       = length (nonempty_songs (re_split ChoCoTune.triple_at payload))
    /\ length tunes + length (warnings events)
       = length (nonempty_songs (re_split ChoCoTune.triple_at payload)).
Proof.
  intros Hm. eexists _, _. split.
  - unfold ChoCoTune.parse_ireal_url. rewrite Hm. apply import_loop.
  - apply import_counts.
Qed.

End WithTune.

Lemma url_cut_at_quote_witness :
  ChoCoTune.parse_ireal_url (H := Fixture.tunes)
    ("irealb://Solar" ++ String (ascii_of_nat 34) "===Blue Bossa")%string empty_world
  = ChoCoTune.parse_ireal_url (H := Fixture.tunes) "irealb://Solar" empty_world.
Proof.
  apply (url_cut_at_quote (H := Fixture.tunes) _ _ "Solar" "===Blue Bossa");
    reflexivity.
Defined.

Lemma songs_accounted_for_witness :
  exists tunes events,
    ChoCoTune.parse_ireal_url (H := Fixture.tunes)
      "irealb://Blue Bossa===bad song======Solar" empty_world
    = (Ok tunes, with_events events empty_world)
    /\ length events = 3
    /\ length tunes + length (warnings events) = 3.
Proof.
  apply (songs_accounted_for (H := Fixture.tunes)
           "irealb://Blue Bossa===bad song======Solar"
           "Blue Bossa===bad song======Solar" empty_world).
  reflexivity.
Defined.

End SegmentFacts.

(** ** [ChoCoTune._get_measures]: the stages and the split *)

Lemma not_marker_no_match c s :
  not_marker c = true ->
  (is_char c 76 && starts_with_Z s = false) ->
  measure_marker_at (String c s) = 0.
Proof.
  unfold not_marker. intros Hc HL. apply negb_true_iff in Hc.
  cbn [measure_marker_at].
  assert (Hbar : is_char c 124 = false).
  { unfold is_single_marker in Hc. now destruct (is_char c 124). }
  rewrite Hbar, Hc. unfold starts_with_Z in HL.
  destruct s as [|d s]; [now rewrite andb_false_r|]. now rewrite HL.
Qed.

Lemma not_marker_not_Z d : not_marker d = true -> is_char d 90 = false.
Proof.
  unfold not_marker, is_single_marker. intros Hd. apply negb_true_iff in Hd.
  destruct (is_char d 90); [|reflexivity]. now rewrite !orb_true_r in Hd.
Qed.

Lemma re_split_free_prefix piece rest :
  PyStr.forallb_str not_marker piece = true ->
  ends_with_L piece && starts_with_Z rest = false ->
  exists p ps,
    PyStr.re_split measure_marker_at rest = p :: ps
    /\ PyStr.re_split measure_marker_at (piece ++ rest)%string
       = (piece ++ p)%string :: ps.
Proof.
  induction piece as [|c piece IH]; intros Hfree HLZ.
  - pose proof (PyStrFacts.re_split_from_nonempty measure_marker_at 0 rest) as Hne.
    change (EmptyString ++ rest)%string with rest.
    unfold PyStr.re_split. destruct (PyStr.re_split_from measure_marker_at 0 rest) as [|p ps];
      [congruence|]. now exists p, ps.
  - cbn [PyStr.forallb_str] in Hfree. apply andb_true_iff in Hfree as [Hc Hfree].
    assert (Hm : measure_marker_at (String c (piece ++ rest)%string) = 0).
    { apply not_marker_no_match; [exact Hc|].
      destruct piece as [|d piece].
      - exact HLZ.
      - cbn [PyStr.forallb_str] in Hfree. apply andb_true_iff in Hfree as [Hd _].
        change (String d piece ++ rest)%string with (String d (piece ++ rest)%string).
        cbn [starts_with_Z]. rewrite (not_marker_not_Z d Hd). apply andb_false_r. }
    destruct IH as (p & ps & E1 & E2); [exact Hfree| |].
    { destruct piece as [|d piece]; [reflexivity|exact HLZ]. }
    destruct (PyStrFacts.re_split_no_match _ _ _ Hm) as (p' & ps' & E3 & E4).
    exists p, ps. split; [exact E1|].
    change (String c piece ++ rest)%string with (String c (piece ++ rest)%string).
    rewrite E4. rewrite E2 in E3. now injection E3 as <- <-.
Qed.

Lemma re_split_marker marker rest :
  In marker measure_markers ->
  PyStr.re_split measure_marker_at (marker ++ rest)%string
  = EmptyString :: PyStr.re_split measure_marker_at rest.
Proof.
  intros Hin. cbn in Hin.
  destruct Hin as [<-|[<-|[<-|[<-|[<-|[<-|[<-|[<-|[]]]]]]]]].
  all: match goal with
       | |- PyStr.re_split _ (String ?c ?t ++ ?r)%string = _ =>
           change (String c t ++ r)%string with (String c (t ++ r)%string)
       end.
  2: { change ("Z" ++ rest)%string with (String "Z" rest).
       now rewrite (PyStrFacts.re_split_match measure_marker_at "L" (String "Z" rest) 1 eq_refl). }
  all: change (EmptyString ++ rest)%string with rest.
  all: match goal with
       | |- PyStr.re_split _ (String ?c ?r) = _ =>
           rewrite (PyStrFacts.re_split_match measure_marker_at c r 0 eq_refl)
       end; now rewrite PyStrFacts.drop_0.
Qed.

Lemma append_empty_r s : (s ++ EmptyString)%string = s.
Proof.
  induction s as [|c s IH]; [reflexivity|].
  change (String c s ++ EmptyString)%string with (String c (s ++ EmptyString)%string).
  now rewrite IH.
Qed.

Lemma split_measures_cons piece pieces :
  map PyStr.strip (List.filter nonblank (piece :: pieces))
  = (if nonblank piece then [PyStr.strip piece] else [])
    ++ map PyStr.strip (List.filter nonblank pieces).
Proof. cbn [List.filter]. now destruct (nonblank piece). Qed.

Lemma split_measures_marker_free piece :
  PyStr.forallb_str not_marker piece = true ->
  split_measures piece = if nonblank piece then [PyStr.strip piece] else [].
Proof.
  intros Hfree.
  destruct (re_split_free_prefix piece EmptyString Hfree) as (p & ps & E1 & E2).
  { apply andb_false_r. }
  injection E1 as <- <-. rewrite !append_empty_r in E2.
  rewrite split_measures_eq, E2, split_measures_cons. apply app_nil_r.
Qed.

Lemma split_measures_cut piece marker rest :
  PyStr.forallb_str not_marker piece = true ->
  In marker measure_markers ->
  (marker = "Z" -> ends_with_L piece = false) ->
  split_measures (piece ++ marker ++ rest)%string
  = (if nonblank piece then [PyStr.strip piece] else []) ++ split_measures rest.
Proof.
  intros Hfree Hin HZ.
  destruct (re_split_free_prefix piece (marker ++ rest)%string Hfree)
    as (p & ps & E1 & E2).
  { cbn in Hin.
    destruct Hin as [<-|[<-|[<-|[<-|[<-|[<-|[<-|[<-|[]]]]]]]]];
      try apply andb_false_r.
    rewrite (HZ eq_refl). reflexivity. }
  rewrite (re_split_marker marker rest Hin) in E1. injection E1 as <- <-.
  rewrite append_empty_r in E2.
  now rewrite !split_measures_eq, E2, split_measures_cons.
Qed.






Section SplitStage.
Context `{PyRealParser}.

(** C7.  [_get_measures] returns a list exactly when the stages succeed
    on one another's results in this order: the clean-up and the removal
    of the annotations, the long repeats, the codas, the split on the
    measure markers without the blank measures, the single and double
    repeats, the slashes; and it raises exactly the exception of the first
    stage that fails.  The split cuts the string at every measure marker:
    a piece without marker characters that comes before a marker gives its
    stripped text as a measure, or no measure when it is blank, and the
    rest of the string is split in the same way; no measure is empty. *)
Theorem C7_stage_order chord_string :
  (forall measures,
     ChoCoTune._get_measures chord_string = Ok measures <->
     exists cleaned stripped repeated with_codas filled,
       _cleanup_chord_string chord_string = Ok cleaned
       /\ _remove_annotations cleaned = Ok stripped
       /\ _fill_long_repeats stripped = Ok repeated
       /\ _fill_codas repeated = Ok with_codas
       /\ _fill_single_double_repeats (split_measures with_codas) = Ok filled
       /\ _fill_slashes filled = Ok measures)
  /\ (forall e,
        ChoCoTune._get_measures chord_string = Raise e <->
        _cleanup_chord_string chord_string = Raise e
        \/ exists cleaned,
             _cleanup_chord_string chord_string = Ok cleaned
             /\ (_remove_annotations cleaned = Raise e
                 \/ exists stripped,
                      _remove_annotations cleaned = Ok stripped
                      /\ (_fill_long_repeats stripped = Raise e
                          \/ exists repeated,
                               _fill_long_repeats stripped = Ok repeated
                               /\ (_fill_codas repeated = Raise e
                                   \/ exists with_codas,
                                        _fill_codas repeated = Ok with_codas
                                        /\ (_fill_single_double_repeats
                                              (split_measures with_codas) = Raise e
                                            \/ exists filled,
                                                 _fill_single_double_repeats
                                                   (split_measures with_codas) = Ok filled
                                                 /\ _fill_slashes filled = Raise e)))))
  /\ (forall piece,
        PyStr.forallb_str not_marker piece = true ->
        split_measures piece = if nonblank piece then [PyStr.strip piece] else [])
  /\ (forall piece marker rest,
        PyStr.forallb_str not_marker piece = true ->
        In marker measure_markers ->
        (marker = "Z" -> ends_with_L piece = false) ->
        split_measures (piece ++ marker ++ rest)%string
        = (if nonblank piece then [PyStr.strip piece] else [])
          ++ split_measures rest)
  /\ (forall with_codas, Forall (fun m => m <> EmptyString) (split_measures with_codas)).
Proof.
  split; [|split; [|split; [|split]]].
  - intros measures.
    unfold ChoCoTune._get_measures, mbind, result_bind, mret, result_ret. split.
    + destruct (_cleanup_chord_string chord_string) as [s0|]; [|discriminate].
      destruct (_remove_annotations s0) as [s1|] eqn:E1; [|discriminate].
      destruct (_fill_long_repeats s1) as [s2|] eqn:E2; [|discriminate].
      destruct (_fill_codas s2) as [s3|] eqn:E3; [|discriminate].
      destruct (_fill_single_double_repeats (split_measures s3)) as [m4|] eqn:E4;
        [|discriminate].
      destruct (_fill_slashes m4) as [m5|] eqn:E5; [|discriminate].
      intros [= <-]. now exists s0, s1, s2, s3, m4.
    + intros (s0 & s1 & s2 & s3 & m4 & -> & -> & -> & -> & -> & ->). reflexivity.
  - intros e.
    unfold ChoCoTune._get_measures, mbind, result_bind, mret, result_ret. split.
    + destruct (_cleanup_chord_string chord_string) as [s0|e0];
        [|intros [= <-]; now left].
      intros E. right. exists s0. split; [reflexivity|].
      destruct (_remove_annotations s0) as [s1|e1]; [|injection E as <-; now left].
      right. exists s1. split; [reflexivity|].
      destruct (_fill_long_repeats s1) as [s2|e2]; [|injection E as <-; now left].
      right. exists s2. split; [reflexivity|].
      destruct (_fill_codas s2) as [s3|e3]; [|injection E as <-; now left].
      right. exists s3. split; [reflexivity|].
      destruct (_fill_single_double_repeats (split_measures s3)) as [m4|e4];
        [|injection E as <-; now left].
      right. exists m4. split; [reflexivity|].
      destruct (_fill_slashes m4) as [m5|e5]; [discriminate|now injection E as <-].
    + intros [->|(s0 & -> & [->|(s1 & -> & [->|(s2 & -> & [->|(s3 & -> & [->|(m4 & -> & ->)])])])])];
        reflexivity.
  - exact split_measures_marker_free.
  - exact split_measures_cut.
  - exact split_measures_nonempty.
Qed.

End SplitStage.

Lemma C7_stage_order_witness :
  ChoCoTune._get_measures (H := SampleTune.numbering) "C|G"
  = Ok ["C"; "G123"; "4"; "5"; "6"]
  /\ split_measures "C LZ G7 Z" = ["C"] ++ split_measures " G7 Z".
Proof.
  destruct (C7_stage_order (H := SampleTune.numbering) "C|G")
    as (Hok & _ & _ & Hcut & _).
  split.
  - apply Hok. exists "C|G1", "C|G12", "C|G123", "C|G123|4", ["C"; "G123"; "4"; "5"].
    repeat split; reflexivity.
  - apply (Hcut "C " "LZ" " G7 Z").
    + reflexivity.
    + right. left. reflexivity.
    + discriminate.
Defined.



(** ** [Parser]: the registered dialects *)

Section Registered.
Context `{Lark}.

(** X22.  The construction of a parser succeeds exactly for the two
    dialects of the table, with the base parser built from the grammar of
    the dialect. *)
Theorem parser_registered dialect parser :
  Parser.__init__ dialect = Ok parser <->
  (dialect = "leadsheet_music21" /\ BaseParser_init leadsheet_music21 = Ok parser)
  \/ (dialect = "abc_music21" /\ BaseParser_init abc_music21 = Ok parser).
Proof.
  unfold Parser.__init__, getitem, mbind, result_bind. rewrite DIALECT_MAP_lookup.
  destruct (String.eqb_spec dialect "abc_music21") as [->|Ha].
  - split; [intros E; right; now split|].
    intros [[E _]|[_ E]]; [discriminate E|exact E].
  - destruct (String.eqb_spec dialect "leadsheet_music21") as [->|Hl].
    + split; [intros E; left; now split|].
      intros [[_ E]|[E _]]; [exact E|discriminate E].
    + split; [discriminate|]. intros [[E _]|[E _]]; contradiction.
Qed.

End Registered.

(** ** [process_score] *)

Module ScoreFacts.
Import Score.

Lemma adjacent_distinct_snoc l x :
  RomanText.adjacent_distinct l ->
  (forall a, last l = Some a -> a <> x) ->
  RomanText.adjacent_distinct (l ++ [x]).
Proof.
  induction l as [|a l IH]; intros Hl Hx; [exact I|].
  destruct l as [|b l].
  - cbn. split; [|exact I]. now apply Hx.
  - destruct Hl as [Hab Hl]. cbn [app RomanText.adjacent_distinct].
    split; [exact Hab|]. apply IH; [exact Hl|].
    intros c Hc. apply Hx. exact Hc.
Qed.

Section WithMusic21.
Context `{Music21}.

Lemma alter_sig_names d i (l : list sig_row) :
  map sig_name (alter (set_sig_duration d) i l) = map sig_name l.
Proof.
  revert i. induction l as [|r l IH]; intros [|i]; cbn; try reflexivity.
  now rewrite IH.
Qed.

Lemma add_signature_distinct kind offmap total ann sg ann' :
  RomanText.adjacent_distinct (map sig_name ann) ->
  add_signature kind offmap total ann sg = Ok ann' ->
  RomanText.adjacent_distinct (map sig_name ann').
Proof.
  intros Ha. destruct sg as [name offset]. unfold add_signature.
  destruct ((length ann =? 0)%nat || _) eqn:Hc; [|now intros [= <-]].
  unfold mbind, result_bind, mret, result_ret.
  destruct (offmap_get offmap offset) as [ms|e]; [|discriminate].
  destruct (item_0 ms) as [m|e]; [|discriminate].
  assert (Hnew : RomanText.adjacent_distinct
                   (map sig_name (ann ++ [mkSigRow name (measure_no kind m) 0
                                            (ql_sub total offset)]))).
  { rewrite map_app. apply adjacent_distinct_snoc; [exact Ha|].
    intros a Hl. cbn. rewrite fmap_last in Hl.
    destruct (last ann) as [r|] eqn:Hr; [|discriminate]. injection Hl as <-.
    apply orb_true_iff in Hc as [Hc|Hc].
    - apply Nat.eqb_eq in Hc. destruct ann; [discriminate Hr|discriminate Hc].
    - now apply negb_true_iff, String.eqb_neq in Hc. }
  destruct (1 <? length _)%nat; intros [= <-]; [|exact Hnew].
  now rewrite alter_sig_names.
Qed.

Lemma fold_result_invariant {A B} (P : B -> Prop) (body : B -> A -> result B) xs :
  (forall acc x acc', P acc -> body acc x = Ok acc' -> P acc') ->
  forall acc r, P acc -> fold_result body xs acc = Ok r -> P r.
Proof.
  intros Hbody. induction xs as [|x xs IH]; intros acc r Hacc E.
  - now injection E as <-.
  - cbn [fold_result] in E. unfold mbind, result_bind in E.
    destruct (body acc x) as [acc'|e] eqn:E1; [|discriminate].
    eapply IH; [|exact E]. eapply Hbody; eauto.
Qed.

Lemma signatures_distinct kind offmap total sigs rows :
  fold_result (add_signature kind offmap total) sigs [] = Ok rows ->
  RomanText.adjacent_distinct (map sig_name rows).
Proof.
  apply (fold_result_invariant
           (fun ann => RomanText.adjacent_distinct (map sig_name ann))).
  - intros acc x acc' Hacc E. eapply add_signature_distinct; eauto.
  - exact I.
Qed.

(** The steps of a call that returns. *)
Lemma process_score_Ok arg expand rename log md chords ts ks log' :
  process_score arg expand rename log = (Ok (md, chords, ts, ks), log') ->
  exists stream part0 part kind,
    load_score arg = Ok stream
    /\ select_chord_part stream = Ok part0
    /\ expand = true
    /\ ((expander_process part0 = Ok part /\ sm_expanded md = true
         /\ kind = WithSuffix /\ log' = log)
        \/ (exists e, expander_process part0 = Raise e
                      /\ exn_class e = "ExpanderException" /\ part = part0
                      /\ sm_expanded md = false /\ kind = Number
                      /\ exists title, log' = log ++ [InconsistentRepeats title]))
    /\ sm_duration md = part_duration part
    /\ fold_result
         (add_signature kind
            (if sm_expanded md && rename
             then renamed_offmap (measureOffsetMap part) else measureOffsetMap part)
            (part_duration part))
         (map (fun x => (ts_str x, ts_offset x)) (time_signatures part)) [] = Ok ts
    /\ fold_result
         (add_signature kind
            (if sm_expanded md && rename
             then renamed_offmap (measureOffsetMap part) else measureOffsetMap part)
            (part_duration part))
         (map (fun x => (ks_name (as_key x), ks_offset (as_key x)))
            (key_signatures part)) [] = Ok ks
    /\ chords = fold_left (add_measure kind rename) (enumerate (part_measures part)) [].
Proof.
  unfold process_score, mbind at 1, M_bind, lift.
  destruct (load_score arg) as [stream|e]; [|discriminate].
  unfold mbind at 1, M_bind.
  destruct (select_chord_part stream) as [part0|e] eqn:Hsel; [|discriminate].
  unfold mbind at 1, M_bind.
  destruct (item_0 (stream_metadata stream)) as [meta|e]; [|discriminate].
  unfold mbind at 1, M_bind.
  destruct (expand_part expand (meta_title meta) part0 log)
    as [[[part expansion]|e] log1] eqn:Hexp; [|discriminate].
  unfold mbind at 1, M_bind.
  destruct (get_expanded expansion) as [[expanded kind]|e] eqn:Hget; [|discriminate].
  unfold mbind at 1, M_bind. destruct (max_key _) as [last_offset|e]; [|discriminate].
  unfold mbind at 1, M_bind. destruct (offmap_get _ last_offset) as [lms|e]; [|discriminate].
  unfold mbind at 1, M_bind. destruct (item_last lms) as [lm|e]; [|discriminate].
  unfold mbind at 1, M_bind. destruct (py_int _) as [dm|e]; [|discriminate].
  unfold mbind at 1, M_bind.
  destruct (fold_result _ (map (fun x => (ts_str x, ts_offset x)) _) [])
    as [ts0|e] eqn:Hts; [|discriminate].
  unfold mbind at 1, M_bind.
  destruct (fold_result _ (map (fun x => (ks_name (as_key x), ks_offset (as_key x))) _) [])
    as [ks0|e] eqn:Hks; [|discriminate].
  unfold mret, M_ret. intros [= <- <- <- <- <-]. cbn [sm_expanded sm_duration].
  exists stream, part0, part, kind. split; [reflexivity|]. split; [exact Hsel|].
  revert Hexp. unfold expand_part. destruct expand.
  - unfold try_except, mbind, M_bind, lift, mret, M_ret.
    destruct (expander_process part0) as [p|e] eqn:He.
    + intros [= <- <- <-]. injection Hget as <- <-.
      split; [reflexivity|]. split; [left; now repeat split|]. now repeat split.
    + destruct (String.eqb_spec (exn_class e) "ExpanderException") as [Hcls|];
        [|discriminate].
      unfold modify. intros [= <- <- <-]. injection Hget as <- <-.
      split; [reflexivity|]. split; [|now repeat split].
      right. exists e. repeat split; auto. now eexists.
  - unfold mret, M_ret. intros [= <- <- <-]. discriminate Hget.
Qed.

(** X23.  With [expand] false, [process_score] never returns a result;
    when the score is loaded, has a part with chords and a metadata
    object, it raises [KeyError] for the key [expanded], and logs
    nothing. *)
Theorem process_score_without_expand arg rename log :
  (forall r log', process_score arg false rename log = (r, log') ->
                  exists e, r = Raise e)
  /\ (forall stream part meta metas,
        load_score arg = Ok stream -> select_chord_part stream = Ok part ->
        stream_metadata stream = meta :: metas ->
        process_score arg false rename log = (Raise (KeyError "expanded"), log)).
Proof.
  split.
  - intros [[[[md chords] ts] ks]|e] log' E; [|now exists e].
    apply process_score_Ok in E as (_ & _ & _ & _ & _ & _ & Hexp & _). discriminate.
  - intros stream part meta metas Hl Hs Hm.
    unfold process_score, mbind at 1, M_bind, lift. rewrite Hl.
    unfold mbind at 1, M_bind. rewrite Hs.
    unfold mbind at 1, M_bind. rewrite Hm. reflexivity.
Qed.

(** X24.  In the lists of time signatures and of key signatures that
    [process_score] returns, no two consecutive rows carry the same
    signature. *)
Theorem process_score_signatures_distinct arg expand rename log md chords ts ks log' :
  process_score arg expand rename log = (Ok (md, chords, ts, ks), log') ->
  RomanText.adjacent_distinct (map sig_name ts)
  /\ RomanText.adjacent_distinct (map sig_name ks).
Proof.
  intros E. apply process_score_Ok in E
    as (stream & part0 & part & kind & _ & _ & _ & _ & _ & Hts & Hks & _).
  split; eapply signatures_distinct; eauto.
Qed.


End WithMusic21.

Lemma process_score_without_expand_witness :
  process_score (H := SampleScore.music21 true) (ScorePath "tune.xml") false true []
  = (Raise (KeyError "expanded"), []).
Proof.
  apply (proj2 (process_score_without_expand (H := SampleScore.music21 true)
                  (ScorePath "tune.xml") true []) 0 0 tt []); reflexivity.
Defined.

Lemma process_score_signatures_distinct_witness :
  exists md chords ts ks log',
    process_score (H := SampleScore.music21 true) (ScorePath "tune.xml") true true []
    = (Ok (md, chords, ts, ks), log')
    /\ map sig_name ts = ["4/4"; "3/4"]
    /\ RomanText.adjacent_distinct (map sig_name ts).
Proof.
  eexists _, _, _, _, _.
  assert (E : process_score (H := SampleScore.music21 true) (ScorePath "tune.xml")
                true true [] = (Ok (_, _, _, _), _)) by (vm_compute; reflexivity).
  split; [exact E|]. split; [reflexivity|].
  exact (proj1 (process_score_signatures_distinct _ _ _ _ _ _ _ _ _ E)).
Defined.


End ScoreFacts.
